(** * MathReceiver: a queued F Prime component, embedded and verified

    The development follows [Components/MathReceiver/MathReceiver.cpp]: the
    four handlers written by hand in the repository ([mathOpIn_handler],
    [schedIn_handler], [parameterUpdated], [CLEAR_EVENT_THROTTLE_cmdHandler])
    are translated line by line into a small state-and-halt monad.  The
    functions they call on the generated base class
    ([MathReceiverComponentBase]) are not part of the repository sources; they
    are modelled from the specification and marked as such. *)

From Stdlib Require Import ZArith List Bool Lia Floats.SpecFloat.
From stdpp Require Import base option list gmap.

(** ** F32: IEEE 754 binary32 *)

(** [F32] is a 32-bit float: 24 bits of precision, infinities at exponent
    128, rounding to nearest even.  The operations are the ones of the
    standard library's executable specification of IEEE 754. *)
Definition F32 : Type := spec_float.

Definition F32_prec : Z := 24%Z.
Definition F32_emax : Z := 128%Z.

Definition F32_add : F32 → F32 → F32 := SFadd F32_prec F32_emax.
Definition F32_sub : F32 → F32 → F32 := SFsub F32_prec F32_emax.
Definition F32_mul : F32 → F32 → F32 := SFmul F32_prec F32_emax.
Definition F32_div : F32 → F32 → F32 := SFdiv F32_prec F32_emax.

(** The literal [0.0]. *)
Definition F32_zero : F32 := S754_zero false.

(** A value is finite when it is neither an infinity nor a NaN. *)
Definition F32_is_finite (x : F32) : bool :=
  match x with
  | S754_zero _ | S754_finite _ _ _ => true
  | S754_infinity _ | S754_nan => false
  end.

(** Small literals used in the examples: [m * 2^e] with a 24-bit mantissa. *)
Definition F32_1_0 : F32 := S754_finite false 8388608%positive (-23)%Z.
Definition F32_2_0 : F32 := S754_finite false 8388608%positive (-22)%Z.
Definition F32_2_5 : F32 := S754_finite false 10485760%positive (-22)%Z.
Definition F32_3_0 : F32 := S754_finite false 12582912%positive (-22)%Z.
Definition F32_5_0 : F32 := S754_finite false 10485760%positive (-21)%Z.
Definition F32_10_0 : F32 := S754_finite false 10485760%positive (-20)%Z.

(** ** Enumerations *)

(** [MathModule::MathOp].  The C++ class stores the selector in the field
    [e]; a value that is none of the four enumerators is kept as
    [MathOp_other] with the raw stored number, which is what reaches the
    [default:] branch of the [switch]. *)
Inductive MathOp : Type :=
  | ADD
  | SUB
  | DIV
  | MUL
  | MathOp_other (e : Z).

Definition MathOp_isValid (op : MathOp) : bool :=
  match op with
  | ADD | SUB | DIV | MUL => true
  | MathOp_other _ => false
  end.

(** Modelled from the spec: [Fw::ParamValid], the validity tag of a
    parameter, "validity tag ∈ {UNINITIALIZED, DEFAULT, VALID}". *)
Inductive ParamValid : Type :=
  | UNINIT
  | DEFAULT
  | VALID.

(** Modelled from the spec: [Fw::CmdResponse], "status ∈ {OK,
    INVALID_OPCODE, EXECUTION_ERROR}". *)
Inductive CmdResponse : Type :=
  | OK
  | INVALID_OPCODE
  | EXECUTION_ERROR.

(** Modelled from the spec: the result of the Parameter Store's [set],
    "set(id, value) -> OK | InvalidValue". *)
Inductive PrmSetStatus : Type :=
  | PRM_SET_OK
  | PRM_INVALID_VALUE.

(** The value returned by one dispatch step ([doDispatch]), which
    [schedIn_handler] discards: a message was dispatched, or the queue was
    empty. *)
Inductive MsgDispatchStatus : Type :=
  | MSG_DISPATCH_OK
  | MSG_DISPATCH_EMPTY.

Definition FwPrmIdType : Type := Z.
Definition FwOpcodeType : Type := Z.
Definition U32 : Type := Z.
Definition NATIVE_INT_TYPE : Type := Z.
Definition NATIVE_UINT_TYPE : Type := Z.

Global Instance MathOp_eq_dec : EqDecision MathOp.
Proof. solve_decision. Defined.
Global Instance ParamValid_eq_dec : EqDecision ParamValid.
Proof. solve_decision. Defined.
Global Instance CmdResponse_eq_dec : EqDecision CmdResponse.
Proof. solve_decision. Defined.

(** ** Messages, observations and the component state *)

(** Modelled from the spec: a queued message, "tagged union of
    {port-invocation (port id, argument payload), command-invocation
    (opcode, sequence number, argument payload)}".  The only asynchronous
    input port of the component is [mathOpIn]; a command's payload is the
    list of its F32 arguments. *)
Inductive Message : Type :=
  | MSG_mathOpIn (portNum : NATIVE_INT_TYPE) (val1 : F32) (op : MathOp) (val2 : F32)
  | MSG_cmd (opCode : FwOpcodeType) (cmdSeq : U32) (args : list F32).

(** What the outside of the component observes, in the style of the
    histories of a component test harness: events and telemetry received by
    the sink, command responses, and values delivered to the peer of the
    result port. *)
Inductive Output : Type :=
  | EVENT_OPERATION_PERFORMED (val : MathOp)
  | EVENT_FACTOR_UPDATED (val : F32)
  | EVENT_THROTTLE_CLEARED
  | TLM_OPERATION (val : MathOp)
  | CMD_RESPONSE (opCode : FwOpcodeType) (cmdSeq : U32) (response : CmdResponse)
  | PORT_mathResultOut (portNum : NATIVE_INT_TYPE) (result : F32).

(** The peer wired to an output port: its input handler runs on the
    caller's thread and may, while it runs, invoke asynchronous input ports
    of this component; the messages it sends that way are what it returns. *)
Definition Peer (A : Type) : Type := A → list Message.

(** The component.  [history], [dispatched] and [enqueued] are ghost
    fields: they record what the component did and have no counterpart in
    the C++ object. *)
Record MathReceiver : Type := mkMathReceiver {
  m_queue : list Message;            (* pending messages, oldest first *)
  m_queueDepth : nat;                (* capacity of the queue *)
  m_params : gmap Z (F32 * ParamValid);  (* Parameter Store: id to (value, validity) *)
  m_FACTOR_UPDATEDThrottle : nat;    (* throttle counter of FACTOR_UPDATED *)
  m_mathResultOut_OutputPort : option (Peer F32);  (* wiring of mathResultOut *)
  history : list Output;             (* observations, oldest first *)
  dispatched : list Message;         (* messages taken off the queue, oldest first *)
  enqueued : list Message            (* messages accepted by the queue, oldest first *)
}.

Definition set_queue (q : list Message) (s : MathReceiver) : MathReceiver :=
  mkMathReceiver q (m_queueDepth s) (m_params s) (m_FACTOR_UPDATEDThrottle s)
    (m_mathResultOut_OutputPort s) (history s) (dispatched s) (enqueued s).

Definition set_params (p : gmap Z (F32 * ParamValid)) (s : MathReceiver) : MathReceiver :=
  mkMathReceiver (m_queue s) (m_queueDepth s) p (m_FACTOR_UPDATEDThrottle s)
    (m_mathResultOut_OutputPort s) (history s) (dispatched s) (enqueued s).

Definition set_throttle (n : nat) (s : MathReceiver) : MathReceiver :=
  mkMathReceiver (m_queue s) (m_queueDepth s) (m_params s) n
    (m_mathResultOut_OutputPort s) (history s) (dispatched s) (enqueued s).

Definition set_history (h : list Output) (s : MathReceiver) : MathReceiver :=
  mkMathReceiver (m_queue s) (m_queueDepth s) (m_params s) (m_FACTOR_UPDATEDThrottle s)
    (m_mathResultOut_OutputPort s) h (dispatched s) (enqueued s).

Definition set_dispatched (d : list Message) (s : MathReceiver) : MathReceiver :=
  mkMathReceiver (m_queue s) (m_queueDepth s) (m_params s) (m_FACTOR_UPDATEDThrottle s)
    (m_mathResultOut_OutputPort s) (history s) d (enqueued s).

Definition set_enqueued (e : list Message) (s : MathReceiver) : MathReceiver :=
  mkMathReceiver (m_queue s) (m_queueDepth s) (m_params s) (m_FACTOR_UPDATEDThrottle s)
    (m_mathResultOut_OutputPort s) (history s) (dispatched s) e.

(** ** The monad of handlers: state, and halting on a failed assertion *)

(** The argument printed by a failed [FW_ASSERT]. *)
Inductive AssertArg : Type :=
  | ARG_MathOp (op : MathOp)
  | ARG_ParamValid (valid : ParamValid)
  | ARG_PrmId (id : FwPrmIdType).

(** A handler either returns, with a value and the new state, or the
    process halts in the state reached at the failed assertion. *)
Inductive Result (A : Type) : Type :=
  | Done (a : A) (s : MathReceiver)
  | Halt (arg : AssertArg) (s : MathReceiver).
Arguments Done {A} a s.
Arguments Halt {A} arg s.

Definition M (A : Type) : Type := MathReceiver → Result A.

Global Instance M_ret : MRet M := λ A a s, Done a s.

Global Instance M_bind : MBind M := λ A B f m s,
  match m s with
  | Done a s' => f a s'
  | Halt arg s' => Halt arg s'
  end.

Definition get : M MathReceiver := λ s, Done s s.
Definition modify (f : MathReceiver → MathReceiver) : M unit := λ s, Done tt (f s).

(** Modelled from the spec: the macro [FW_ASSERT(cond, arg)].  A failed
    assertion is a configuration failure, which "must halt execution
    (fail-fast), never silently substituted with a default". *)
Definition FW_ASSERT (cond : bool) (arg : AssertArg) : M unit :=
  λ s, if cond then Done tt s else Halt arg s.

(** Whether a run halted. *)
Definition halted {A} (r : Result A) : bool :=
  match r with
  | Done _ _ => false
  | Halt _ _ => true
  end.

(** The state in which a run ended, returned or halted. *)
Definition final {A} (r : Result A) : MathReceiver :=
  match r with
  | Done _ s => s
  | Halt _ s => s
  end.

(** ** The generated base class *)

(** The constants that the code generator writes into the base class from
    the component's FPP model, which is not among the repository sources:
    the identifier of the FACTOR parameter, the throttle threshold of the
    FACTOR_UPDATED event, and the opcodes of the two commands. *)
Class MathReceiverComponentAc : Type := {
  PARAMID_FACTOR : FwPrmIdType;
  EVENTID_FACTOR_UPDATED_THROTTLE : nat;
  OPCODE_CLEAR_EVENT_THROTTLE : FwOpcodeType;
  OPCODE_FACTOR_SET : FwOpcodeType
}.

(** Appends one observation to the history. *)
Definition record (o : Output) : M unit :=
  modify (λ s, set_history (history s ++ [o]) s).

(** Modelled from the spec: the Message Queue's [enqueue], "enqueue(Message)
    -> success | Full", on a queue of bounded capacity; a full queue refuses
    the message and is left as it is. *)
Definition enqueue (msg : Message) : M bool := λ s,
  if decide (length (m_queue s) < m_queueDepth s)
  then Done true (set_enqueued (enqueued s ++ [msg]) (set_queue (m_queue s ++ [msg]) s))
  else Done false s.

(** The messages a peer sends back, offered to the queue one by one. *)
Fixpoint enqueueAll (msgs : list Message) : M unit :=
  match msgs with
  | [] => mret tt
  | msg :: rest => enqueue msg;; enqueueAll rest
  end.

(** Modelled from the spec: [m_queue.getMessagesAvailable()], "the current
    depth of the Message Queue". *)
Definition getMessagesAvailable : M nat :=
  s ← get; mret (length (m_queue s)).

(** Modelled from the spec: [invoke] of a synchronous output port.  "An
    output port's invoke resolves to exactly one connected peer's input
    handler"; "invoking an unconnected output port is a no-op by design
    (must not crash)".  With a peer, the peer observes the call ([obs]) and
    the messages it sends back are enqueued. *)
Definition OutputPort_invoke {A : Type} (obs : A → Output)
    (peer : option (Peer A)) (a : A) : M unit :=
  match peer with
  | None => mret tt
  | Some handler => record (obs a);; enqueueAll (handler a)
  end.

(** Modelled from the spec: [mathResultOut_out(portNum, result)], the
    invocation of the result output port. *)
Definition mathResultOut_out (portNum : NATIVE_INT_TYPE) (result : F32) : M unit :=
  s ← get;
  OutputPort_invoke (PORT_mathResultOut portNum) (m_mathResultOut_OutputPort s) result.

(** Modelled from the spec: [log_ACTIVITY_HI_OPERATION_PERFORMED(op)], the
    narrow emit interface of the Event/Telemetry Sink for an event that
    carries no throttle. *)
Definition log_ACTIVITY_HI_OPERATION_PERFORMED (val : MathOp) : M unit :=
  record (EVENT_OPERATION_PERFORMED val).

(** Modelled from the spec: [log_ACTIVITY_HI_THROTTLE_CLEARED()], the
    "one-time cleared notification", an event that carries no throttle. *)
Definition log_ACTIVITY_HI_THROTTLE_CLEARED : M unit :=
  record EVENT_THROTTLE_CLEARED.

(** Modelled from the spec: [tlmWrite_OPERATION(op)], a telemetry sample
    "(channelId, timestamp, value) -> sink" on the OPERATION channel. *)
Definition tlmWrite_OPERATION (val : MathOp) : M unit :=
  record (TLM_OPERATION val).

(** Modelled from the spec: [cmdResponse_out(opCode, cmdSeq, response)], the
    completion response "(opcode, sequenceNumber, status)". *)
Definition cmdResponse_out (opCode : FwOpcodeType) (cmdSeq : U32)
    (response : CmdResponse) : M unit :=
  record (CMD_RESPONSE opCode cmdSeq response).

Section Component.
Context `{Ac : MathReceiverComponentAc}.

(** Modelled from the spec: the Parameter Store's [get], "get(id) ->
    (value, validity)".  A parameter is "created at component
    construction (UNINITIALIZED)": an identifier with no entry yet reads
    as UNINITIALIZED. *)
Definition paramGet (id : FwPrmIdType) : M (F32 * ParamValid) :=
  s ← get; mret (default (F32_zero, UNINIT) (m_params s !! id)).

(** Modelled from the spec: [paramGet_FACTOR(valid)], the [get] of the
    FACTOR parameter; the value is returned and the validity is written to
    [valid]. *)
Definition paramGet_FACTOR : M (F32 * ParamValid) :=
  paramGet PARAMID_FACTOR.

(** Modelled from the spec: the throttled event FACTOR_UPDATED.  "Once the
    counter reaches a configured threshold, further emissions of that
    event kind are suppressed until explicitly cleared"; the counter
    saturates at the threshold.  The suppression flag of the spec is the
    comparison of the counter with the threshold. *)
Definition log_ACTIVITY_HI_FACTOR_UPDATED (val : F32) : M unit :=
  s ← get;
  if decide (EVENTID_FACTOR_UPDATED_THROTTLE ≤ m_FACTOR_UPDATEDThrottle s)
  then mret tt
  else
    modify (set_throttle (S (m_FACTOR_UPDATEDThrottle s)));;
    record (EVENT_FACTOR_UPDATED val).

(** Modelled from the spec: clearing the throttle, "the counter resets". *)
Definition log_ACTIVITY_HI_FACTOR_UPDATED_ThrottleClear : M unit :=
  modify (set_throttle 0).

(** ** The handlers of MathReceiver.cpp *)

(** [MathReceiver::mathOpIn_handler]. *)
Definition mathOpIn_handler (portNum : NATIVE_INT_TYPE) (val1 : F32)
    (op : MathOp) (val2 : F32) : M unit :=
  (* Get the initial result *)
  let res := F32_zero in
  res ← match op with
        | ADD => mret (F32_add val1 val2)
        | SUB => mret (F32_sub val1 val2)
        | DIV => mret (F32_div val1 val2)
        | MUL => mret (F32_mul val1 val2)
        | MathOp_other _ => FW_ASSERT false (ARG_MathOp op);; mret res
        end;
  (* Get the factor value *)
  '(factor, valid) ← paramGet_FACTOR;
  FW_ASSERT (bool_decide (valid = VALID) || bool_decide (valid = DEFAULT))
    (ARG_ParamValid valid);;
  (* Multiply result by factor *)
  let res := F32_mul res factor in
  (* Emit telemetry and events *)
  log_ACTIVITY_HI_OPERATION_PERFORMED op;;
  tlmWrite_OPERATION op;;
  (* Emit result *)
  mathResultOut_out 0%Z res.

(** [MathReceiver::parameterUpdated]. *)
Definition parameterUpdated (id : FwPrmIdType) : M unit :=
  if decide (id = PARAMID_FACTOR) then
    '(val, valid) ← paramGet_FACTOR;
    FW_ASSERT (bool_decide (valid = VALID) || bool_decide (valid = DEFAULT))
      (ARG_ParamValid valid);;
    log_ACTIVITY_HI_FACTOR_UPDATED val
  else
    FW_ASSERT false (ARG_PrmId id).

(** [MathReceiver::CLEAR_EVENT_THROTTLE_cmdHandler]. *)
Definition CLEAR_EVENT_THROTTLE_cmdHandler (opCode : FwOpcodeType)
    (cmdSeq : U32) : M unit :=
  (* clear throttle *)
  log_ACTIVITY_HI_FACTOR_UPDATED_ThrottleClear;;
  (* send event that throttle is cleared *)
  log_ACTIVITY_HI_THROTTLE_CLEARED;;
  (* reply with completion status *)
  cmdResponse_out opCode cmdSeq OK.

(** ** Parameter update, command dispatch, message dispatch *)

(** Modelled from the spec: the Parameter Store's [set], "set(id, value)
    -> OK | InvalidValue", which "triggers a post-update notification
    callback supplied by the owning component", [parameterUpdated], before
    it returns, and leaves the parameter VALID ("transitions to VALID on
    external command-driven update").  The value arrives as the argument
    payload of the command; a payload that is not exactly one F32 is the
    invalid value. *)
Definition paramSet (id : FwPrmIdType) (args : list F32) : M PrmSetStatus :=
  match args with
  | [val] =>
      modify (λ s, set_params (<[id := (val, VALID)]> (m_params s)) s);;
      parameterUpdated id;;
      mret PRM_SET_OK
  | _ => mret PRM_INVALID_VALUE
  end.

(** Modelled from the spec: the Command Dispatcher, "dispatch(opcode,
    sequenceNumber, args) -> CommandResponse".  It "looks up a registered
    handler for opcode; fails with InvalidOpcode if none is registered (the
    response carries a failure status, the sequence number is still
    echoed)"; "the handler runs to completion before the response is
    emitted".  The registered commands are CLEAR_EVENT_THROTTLE and the
    update of FACTOR. *)
Definition dispatch (opCode : FwOpcodeType) (cmdSeq : U32) (args : list F32)
    : M unit :=
  if decide (opCode = OPCODE_CLEAR_EVENT_THROTTLE) then
    CLEAR_EVENT_THROTTLE_cmdHandler opCode cmdSeq
  else if decide (opCode = OPCODE_FACTOR_SET) then
    status ← paramSet PARAMID_FACTOR args;
    cmdResponse_out opCode cmdSeq
      match status with
      | PRM_SET_OK => OK
      | PRM_INVALID_VALUE => EXECUTION_ERROR
      end
  else
    cmdResponse_out opCode cmdSeq INVALID_OPCODE.

(** Modelled from the spec: [doDispatch], one step of the dispatch loop.
    It takes the oldest message off the queue and routes it "by its tag to
    either a port handler or the Command Dispatcher"; the handler runs
    synchronously. *)
Definition doDispatch : M MsgDispatchStatus :=
  s ← get;
  match m_queue s with
  | [] => mret MSG_DISPATCH_EMPTY
  | msg :: rest =>
      modify (λ s, set_dispatched (dispatched s ++ [msg]) (set_queue rest s));;
      match msg with
      | MSG_mathOpIn portNum val1 op val2 => mathOpIn_handler portNum val1 op val2
      | MSG_cmd opCode cmdSeq args => dispatch opCode cmdSeq args
      end;;
      mret MSG_DISPATCH_OK
  end.

(** The loop [for (U32 i = 0; i < numMsgs; ++i) body], by recursion on the
    number of iterations left. *)
Fixpoint for_U32 (numMsgs : nat) (body : M unit) : M unit :=
  match numMsgs with
  | O => mret tt
  | S remaining => body;; for_U32 remaining body
  end.

(** [MathReceiver::schedIn_handler]. *)
Definition schedIn_handler (portNum : NATIVE_INT_TYPE)
    (context : NATIVE_UINT_TYPE) : M unit :=
  numMsgs ← getMessagesAvailable;
  for_U32 numMsgs (doDispatch;; mret tt).

(** ** Reading the state *)

(** The validity of FACTOR as a read at state [s] finds it. *)
Definition FACTOR_valid (s : MathReceiver) : ParamValid :=
  (default (F32_zero, UNINIT) (m_params s !! PARAMID_FACTOR)).2.

(** The value of FACTOR as a read at state [s] finds it. *)
Definition FACTOR_value (s : MathReceiver) : F32 :=
  (default (F32_zero, UNINIT) (m_params s !! PARAMID_FACTOR)).1.

(** The state right after the store took the new value of a parameter,
    before the notification. *)
Definition stored (id : FwPrmIdType) (val : F32) (s : MathReceiver) : MathReceiver :=
  set_params (<[id := (val, VALID)]> (m_params s)) s.

(** The status with which a command is answered: OK for
    CLEAR_EVENT_THROTTLE, OK or EXECUTION_ERROR for the update of FACTOR
    according to its payload, INVALID_OPCODE for any other opcode. *)
Definition response_status (opCode : FwOpcodeType) (args : list F32) : CmdResponse :=
  if decide (opCode = OPCODE_CLEAR_EVENT_THROTTLE) then OK
  else if decide (opCode = OPCODE_FACTOR_SET) then
    match args with
    | [_] => OK
    | _ => EXECUTION_ERROR
    end
  else INVALID_OPCODE.

End Component.

(** What the peer of the result port observes of one invocation: the call,
    when a peer is wired, and nothing otherwise. *)
Definition delivered (s : MathReceiver) (o : Output) : list Output :=
  match m_mathResultOut_OutputPort s with
  | Some _ => [o]
  | None => []
  end.

(** ** The operator of the specification *)

(** The specification's [operator(val1, val2)]: the arithmetic operation
    named by a valid selector.  It is stated on its own, apart from the
    handler, so that the handler can be compared with it. *)
Definition spec_operator (op : MathOp) (val1 val2 : F32) : F32 :=
  match op with
  | ADD => F32_add val1 val2
  | SUB => F32_sub val1 val2
  | DIV => F32_div val1 val2
  | MUL => F32_mul val1 val2
  | MathOp_other _ => F32_zero
  end.

(** The command responses among a list of observations. *)
Definition cmdResponses (h : list Output) : list (FwOpcodeType * U32 * CmdResponse) :=
  omap (λ o, match o with
             | CMD_RESPONSE opCode cmdSeq response => Some (opCode, cmdSeq, response)
             | _ => None
             end) h.

(** The F32 values that the events and the telemetry among a list of
    observations carry.  FACTOR_UPDATED is the only event with an F32
    argument; OPERATION_PERFORMED and the OPERATION channel carry the
    operation selector. *)
Definition sink_values (h : list Output) : list F32 :=
  omap (λ o, match o with
             | EVENT_FACTOR_UPDATED val => Some val
             | _ => None
             end) h.

(** The F32 values delivered through the result port among a list of
    observations. *)
Definition port_values (h : list Output) : list F32 :=
  omap (λ o, match o with
             | PORT_mathResultOut _ result => Some result
             | _ => None
             end) h.

(** A queued message whose handler has no assertion to fail on the message
    itself: a request with a valid selector, or any command. *)
Definition Message_ok (msg : Message) : bool :=
  match msg with
  | MSG_mathOpIn _ _ op _ => MathOp_isValid op
  | MSG_cmd _ _ _ => true
  end.

(** The state grew only at the tail of the queue: nothing was taken off
    it, and what was appended is what the queue accepted. *)
Definition extends (s s' : MathReceiver) : Prop :=
  dispatched s' = dispatched s ∧
  ∃ new, m_queue s' = m_queue s ++ new ∧ enqueued s' = enqueued s ++ new.

(** A computation that only ever appends to the queue, whether it returns
    or halts. *)
Definition appends_only {A} (m : M A) : Prop :=
  ∀ s, extends s (final (m s)).

(** The emission attempts of FACTOR_UPDATED for a list of values, in order. *)
Fixpoint log_FACTOR_UPDATED_each `{Ac : MathReceiverComponentAc}
    (vals : list F32) : M unit :=
  match vals with
  | [] => mret tt
  | val :: rest => log_ACTIVITY_HI_FACTOR_UPDATED val;; log_FACTOR_UPDATED_each rest
  end.

(** ** A concrete deployment, for the examples *)

(** One choice of the generated constants: FACTOR has identifier 0,
    FACTOR_UPDATED is throttled after 3 emissions, CLEAR_EVENT_THROTTLE has
    opcode 0 and the update of FACTOR opcode 10. *)
Definition tutorialAc : MathReceiverComponentAc := {|
  PARAMID_FACTOR := 0%Z;
  EVENTID_FACTOR_UPDATED_THROTTLE := 3;
  OPCODE_CLEAR_EVENT_THROTTLE := 0%Z;
  OPCODE_FACTOR_SET := 10%Z
|}.

(** The component as constructed: nothing queued, no parameter loaded, the
    throttle counter at zero, the result port not wired. *)
Definition constructed (queueDepth : nat) : MathReceiver := {|
  m_queue := [];
  m_queueDepth := queueDepth;
  m_params := ∅;
  m_FACTOR_UPDATEDThrottle := 0;
  m_mathResultOut_OutputPort := None;
  history := [];
  dispatched := [];
  enqueued := []
|}.

(** Loading the built-in default of FACTOR. *)
Definition loadDefault `{Ac : MathReceiverComponentAc} (val : F32)
    (s : MathReceiver) : MathReceiver :=
  set_params (<[PARAMID_FACTOR := (val, DEFAULT)]> (m_params s)) s.

(** Wiring the result port to a peer. *)
Definition connect (peer : Peer F32) (s : MathReceiver) : MathReceiver :=
  mkMathReceiver (m_queue s) (m_queueDepth s) (m_params s) (m_FACTOR_UPDATEDThrottle s)
    (Some peer) (history s) (dispatched s) (enqueued s).

(** A peer that only receives the result. *)
Definition sink : Peer F32 := λ _, [].

(** A peer that answers every result with a new request to [mathOpIn]. *)
Definition echo : Peer F32 := λ result, [MSG_mathOpIn 0%Z result ADD F32_1_0].

(** The component after its defaults are loaded (FACTOR is 1.0),
    with the result port wired to a receiving peer. *)
Definition nominal : MathReceiver :=
  connect sink (loadDefault (Ac := tutorialAc) F32_1_0 (constructed 10)).

(** The same, with the result port left unwired. *)
Definition unwired : MathReceiver :=
  loadDefault (Ac := tutorialAc) F32_1_0 (constructed 10).

(** The same as [nominal], with a second parameter, of identifier 7, in the
    store. *)
Definition two_params : MathReceiver :=
  set_params (<[7%Z := (F32_3_0, DEFAULT)]> (m_params nominal)) nominal.

(** The component before its parameters are loaded, with two requests
    already queued. *)
Definition unloaded_two : MathReceiver :=
  set_queue [MSG_mathOpIn 0%Z F32_2_0 ADD F32_3_0; MSG_mathOpIn 0%Z F32_2_0 MUL F32_3_0]
    (connect sink (constructed 10)).

(** The component after three updates of FACTOR by command, to 2.0, 3.0 and
    5.0. *)
Definition after_three_updates : MathReceiver :=
  final (paramSet (Ac := tutorialAc) 0%Z [F32_5_0]
    (final (paramSet (Ac := tutorialAc) 0%Z [F32_3_0]
      (final (paramSet (Ac := tutorialAc) 0%Z [F32_2_0] nominal))))).

(** Three requests queued on a component whose result port is wired to
    [echo], so that every dispatched request brings a new one in. *)
Definition three_queued : MathReceiver :=
  set_queue [MSG_mathOpIn 0%Z F32_2_0 ADD F32_3_0;
             MSG_mathOpIn 0%Z F32_2_0 MUL F32_3_0;
             MSG_mathOpIn 0%Z F32_5_0 SUB F32_3_0]
    (connect echo (loadDefault (Ac := tutorialAc) F32_1_0 (constructed 10))).


(** ** Further notions, for the properties of the handlers *)

(** A NaN. *)
Definition F32_is_nan (x : F32) : bool :=
  match x with
  | S754_nan => true
  | _ => false
  end.

(** A well-formed binary32 value: a finite one has a canonical mantissa and
    an exponent in range. *)
Definition F32_valid (x : F32) : bool := valid_binary F32_prec F32_emax x.

(** A run of updates of FACTOR by command, one value after the other. *)
Fixpoint paramSet_FACTOR_each `{Ac : MathReceiverComponentAc}
    (vals : list F32) : M unit :=
  match vals with
  | [] => mret tt
  | val :: rest => paramSet PARAMID_FACTOR [val];; paramSet_FACTOR_each rest
  end.

(** Every message the queue accepted so far is either dispatched or still
    queued, in the order of arrival. *)
Definition conserved (s : MathReceiver) : Prop :=
  enqueued s = dispatched s ++ m_queue s.

(** The component before its parameters are loaded, nothing queued, the
    result port wired to a receiving peer. *)
Definition unloaded : MathReceiver := connect sink (constructed 10).

(** Three requests sent to a component whose result port is wired to
    [echo], through the queue's [enqueue]. *)
Definition three_accepted : MathReceiver :=
  final (enqueueAll [MSG_mathOpIn 0%Z F32_2_0 ADD F32_3_0;
                     MSG_mathOpIn 0%Z F32_2_0 MUL F32_3_0;
                     MSG_mathOpIn 0%Z F32_5_0 SUB F32_3_0]
           (connect echo (loadDefault (Ac := tutorialAc) F32_1_0 (constructed 10)))).

(** * Properties *)

(** ** Reasoning about runs *)

Ltac unfold_M :=
  unfold record in *; unfold mbind, M_bind, mret, M_ret, get, modify, FW_ASSERT in *;
  cbn beta iota in *.

Lemma bind_Done {A B} (m : M A) (f : A → M B) s a s' :
  m s = Done a s' → (m ≫= f) s = f a s'.
Proof. unfold_M. by intros ->. Qed.

Lemma bind_Halt {A B} (m : M A) (f : A → M B) s arg s' :
  m s = Halt arg s' → (m ≫= f) s = Halt arg s'.
Proof. unfold_M. by intros ->. Qed.

(** *** Finite and non-finite floats *)

Lemma F32_mul_not_finite_l (x y : F32) :
  F32_is_finite x = false → F32_is_finite (F32_mul x y) = false.
Proof. by destruct x, y. Qed.

Lemma F32_div_zero_not_finite (x : F32) (sign : bool) :
  F32_is_finite (F32_div x (S754_zero sign)) = false.
Proof. by destruct x. Qed.

(** *** The queue only grows at its tail *)

Lemma extends_refl s : extends s s.
Proof. split; [done|]. exists []. by rewrite !app_nil_r. Qed.

Lemma extends_trans s1 s2 s3 : extends s1 s2 → extends s2 s3 → extends s1 s3.
Proof.
  intros [Hd1 (n1 & Hq1 & He1)] [Hd2 (n2 & Hq2 & He2)]. split; [congruence|].
  exists (n1 ++ n2). rewrite Hq2, He2, Hq1, He1, !app_assoc. done.
Qed.

Ltac same_queue :=
  intros s; split; [done|]; exists []; simpl; by rewrite !app_nil_r.

Lemma appends_only_ret {A} (a : A) : appends_only (mret a).
Proof. same_queue. Qed.

Lemma appends_only_bind {A B} (m : M A) (f : A → M B) :
  appends_only m → (∀ a, appends_only (f a)) → appends_only (m ≫= f).
Proof.
  intros Hm Hf s. specialize (Hm s). unfold_M.
  destruct (m s) as [a s'|arg s']; simpl in *; [|done].
  eapply extends_trans; [done|]. apply Hf.
Qed.

Lemma appends_only_get : appends_only get.
Proof. same_queue. Qed.

Lemma appends_only_FW_ASSERT cond arg : appends_only (FW_ASSERT cond arg).
Proof. destruct cond; same_queue. Qed.

Lemma appends_only_record o : appends_only (record o).
Proof. same_queue. Qed.

Lemma appends_only_set_throttle n : appends_only (modify (set_throttle n)).
Proof. same_queue. Qed.

Lemma appends_only_set_params (f : MathReceiver → gmap Z (F32 * ParamValid)) :
  appends_only (modify (λ s, set_params (f s) s)).
Proof. same_queue. Qed.

Lemma appends_only_enqueue msg : appends_only (enqueue msg).
Proof.
  intros s. unfold enqueue. case_decide; [|apply extends_refl].
  split; [done|]. by exists [msg].
Qed.

Lemma appends_only_enqueueAll msgs : appends_only (enqueueAll msgs).
Proof.
  induction msgs as [|msg rest IH]; simpl.
  - apply appends_only_ret.
  - apply appends_only_bind; [apply appends_only_enqueue|done].
Qed.

Create HintDb appends discriminated.
#[local] Hint Resolve appends_only_ret appends_only_get appends_only_FW_ASSERT
  appends_only_record appends_only_set_throttle appends_only_set_params
  appends_only_enqueue appends_only_enqueueAll : appends.

Ltac appends_only_tac :=
  repeat first
    [ progress intros
    | solve [auto with appends]
    | apply appends_only_bind
    | case_decide
    | match goal with
      | |- appends_only (match ?x with _ => _ end) => destruct x
      | |- appends_only (let '(_, _) := ?x in _) => destruct x
      end ].

Lemma appends_only_OutputPort_invoke {A} obs peer (a : A) :
  appends_only (OutputPort_invoke obs peer a).
Proof. unfold OutputPort_invoke. appends_only_tac. Qed.
#[local] Hint Resolve appends_only_OutputPort_invoke : appends.

Lemma appends_only_mathResultOut_out portNum result :
  appends_only (mathResultOut_out portNum result).
Proof. unfold mathResultOut_out. appends_only_tac. Qed.
#[local] Hint Resolve appends_only_mathResultOut_out : appends.

Section ComponentFacts.
Context `{Ac : MathReceiverComponentAc}.

Lemma appends_only_mathOpIn_handler portNum val1 op val2 :
  appends_only (mathOpIn_handler portNum val1 op val2).
Proof.
  unfold mathOpIn_handler, log_ACTIVITY_HI_OPERATION_PERFORMED, tlmWrite_OPERATION,
    paramGet_FACTOR, paramGet.
  appends_only_tac.
Qed.

Lemma appends_only_parameterUpdated id : appends_only (parameterUpdated id).
Proof.
  unfold parameterUpdated, log_ACTIVITY_HI_FACTOR_UPDATED, paramGet_FACTOR, paramGet.
  appends_only_tac.
Qed.

Lemma appends_only_dispatch opCode cmdSeq args :
  appends_only (dispatch opCode cmdSeq args).
Proof.
  pose proof appends_only_parameterUpdated.
  unfold dispatch, CLEAR_EVENT_THROTTLE_cmdHandler, paramSet, cmdResponse_out,
    log_ACTIVITY_HI_FACTOR_UPDATED_ThrottleClear, log_ACTIVITY_HI_THROTTLE_CLEARED.
  appends_only_tac.
Qed.

End ComponentFacts.

(** *** Output ports *)

Lemma enqueueAll_Done msgs s :
  ∃ s', enqueueAll msgs s = Done tt s' ∧
    history s' = history s ∧ m_params s' = m_params s ∧
    m_FACTOR_UPDATEDThrottle s' = m_FACTOR_UPDATEDThrottle s ∧
    m_mathResultOut_OutputPort s' = m_mathResultOut_OutputPort s.
Proof.
  revert s. induction msgs as [|msg rest IH]; intros s; simpl.
  - by exists s.
  - unfold_M. unfold enqueue. case_decide.
    + edestruct IH as (s' & -> & ? & ? & ? & ?). by exists s'.
    + apply IH.
Qed.

Lemma mathResultOut_out_Done portNum result s :
  ∃ s', mathResultOut_out portNum result s = Done tt s' ∧
    history s' = history s ++ delivered s (PORT_mathResultOut portNum result) ∧
    m_params s' = m_params s ∧
    m_FACTOR_UPDATEDThrottle s' = m_FACTOR_UPDATEDThrottle s.
Proof.
  unfold mathResultOut_out, OutputPort_invoke, delivered. unfold_M.
  destruct (m_mathResultOut_OutputPort s) as [handler|].
  - edestruct enqueueAll_Done as (s' & -> & ? & ? & ? & ?). by exists s'.
  - exists s. by rewrite app_nil_r.
Qed.

Section HandlerFacts.
Context `{Ac : MathReceiverComponentAc}.

Lemma paramGet_FACTOR_Done s :
  paramGet_FACTOR s = Done (FACTOR_value s, FACTOR_valid s) s.
Proof.
  unfold paramGet_FACTOR, paramGet, FACTOR_value, FACTOR_valid. unfold_M.
  by destruct (default _ _).
Qed.

(** With a valid selector and a trusted FACTOR the handler is the
    straight line: one event, one telemetry write, one port invocation. *)
Lemma mathOpIn_handler_straight portNum val1 op val2 s :
  MathOp_isValid op = true →
  FACTOR_valid s ≠ UNINIT →
  mathOpIn_handler portNum val1 op val2 s =
    (log_ACTIVITY_HI_OPERATION_PERFORMED op;;
     tlmWrite_OPERATION op;;
     mathResultOut_out 0%Z (F32_mul (spec_operator op val1 val2) (FACTOR_value s)))
      (s).
Proof.
  intros Hop Hvalid. pose proof (paramGet_FACTOR_Done s) as Hget.
  unfold mathOpIn_handler. unfold_M.
  destruct op; try done; cbn beta iota; rewrite Hget;
    by destruct (FACTOR_valid s).
Qed.

Lemma mathOpIn_handler_Done portNum val1 op val2 s :
  MathOp_isValid op = true →
  FACTOR_valid s ≠ UNINIT →
  ∃ s', mathOpIn_handler portNum val1 op val2 s = Done tt s' ∧
    history s' = history s ++
      [EVENT_OPERATION_PERFORMED op; TLM_OPERATION op] ++
      delivered s (PORT_mathResultOut 0%Z
                     (F32_mul (spec_operator op val1 val2) (FACTOR_value s))) ∧
    m_params s' = m_params s ∧
    m_FACTOR_UPDATEDThrottle s' = m_FACTOR_UPDATEDThrottle s.
Proof.
  intros Hop Hvalid. rewrite mathOpIn_handler_straight by done.
  unfold log_ACTIVITY_HI_OPERATION_PERFORMED, tlmWrite_OPERATION. unfold_M.
  edestruct mathResultOut_out_Done as (s' & -> & Hh & Hp & Ht).
  exists s'. split; [done|]. rewrite Hh. simpl. rewrite <- !app_assoc. done.
Qed.

Lemma mathOpIn_handler_Halt_op portNum val1 e val2 s :
  mathOpIn_handler portNum val1 (MathOp_other e) val2 s =
    Halt (ARG_MathOp (MathOp_other e)) s.
Proof. done. Qed.

Lemma mathOpIn_handler_Halt_valid portNum val1 op val2 s :
  MathOp_isValid op = true →
  FACTOR_valid s = UNINIT →
  mathOpIn_handler portNum val1 op val2 s = Halt (ARG_ParamValid UNINIT) s.
Proof.
  intros Hop Hvalid. unfold mathOpIn_handler.
  pose proof (paramGet_FACTOR_Done s) as Hget. rewrite Hvalid in Hget.
  destruct op; try done; unfold_M; by rewrite Hget.
Qed.

Lemma mathOpIn_handler_halted portNum val1 op val2 s :
  MathOp_isValid op = false ∨ FACTOR_valid s = UNINIT →
  ∃ arg, mathOpIn_handler portNum val1 op val2 s = Halt arg s.
Proof.
  destruct (MathOp_isValid op) eqn:Hop.
  - intros [?|Hvalid]; [done|]. eexists. by apply mathOpIn_handler_Halt_valid.
  - intros _. destruct op; try done. eexists. apply mathOpIn_handler_Halt_op.
Qed.

Lemma parameterUpdated_other id s :
  id ≠ PARAMID_FACTOR → parameterUpdated id s = Halt (ARG_PrmId id) s.
Proof. intros Hid. unfold parameterUpdated. by case_decide. Qed.

End HandlerFacts.

(** ** The computation handler *)

Section MathOpIn.
Context `{Ac : MathReceiverComponentAc}.

(** C1.  For every valid operation selector (ADD, SUB, DIV, MUL) and every
    pair of operands, finite or not, when the read of FACTOR at invocation
    time finds the value [factor] with validity VALID or DEFAULT,
    [mathOpIn_handler] returns and is exactly one OPERATION_PERFORMED
    event, one OPERATION telemetry write and one invocation of the result
    output port, on port 0, with the value [operator(val1, val2) * factor].
    The observations it adds are that event, that telemetry write and, as
    seen by the peer of the result port when one is wired, that single
    call. *)
Theorem mathOpIn_handler_result portNum val1 op val2 s factor valid :
  MathOp_isValid op = true →
  paramGet_FACTOR s = Done (factor, valid) s →
  valid = VALID ∨ valid = DEFAULT →
  let result := F32_mul (spec_operator op val1 val2) factor in
  mathOpIn_handler portNum val1 op val2 s =
    (log_ACTIVITY_HI_OPERATION_PERFORMED op;;
     tlmWrite_OPERATION op;;
     mathResultOut_out 0%Z result) s ∧
  ∃ s', mathOpIn_handler portNum val1 op val2 s = Done tt s' ∧
    history s' = history s ++
      [EVENT_OPERATION_PERFORMED op; TLM_OPERATION op] ++
      delivered s (PORT_mathResultOut 0%Z result).
Proof.
  intros Hop Hget Hvalid result. rewrite paramGet_FACTOR_Done in Hget.
  injection Hget as Hfactor Hvalid'.
  assert (FACTOR_valid s ≠ UNINIT) as Hinit by (destruct Hvalid; congruence).
  subst result factor. split.
  - by apply mathOpIn_handler_straight.
  - destruct (mathOpIn_handler_Done portNum val1 op val2 s Hop Hinit)
      as (s' & Hrun & Hhist & _).
    by exists s'.
Qed.

(** C4.  [mathOpIn_handler] halts on a failed assertion exactly when the
    operation selector is none of ADD, SUB, DIV, MUL or the validity of
    FACTOR read at that time is UNINITIALIZED; when it halts the state is
    the one it started from, so no default was substituted and nothing was
    emitted.  [parameterUpdated] halts, likewise without emitting, on any
    parameter identifier other than PARAMID_FACTOR. *)
Theorem fatal_assertions portNum val1 op val2 id s :
  (halted (mathOpIn_handler portNum val1 op val2 s) = true ↔
     MathOp_isValid op = false ∨ FACTOR_valid s = UNINIT) ∧
  (halted (mathOpIn_handler portNum val1 op val2 s) = true →
     final (mathOpIn_handler portNum val1 op val2 s) = s) ∧
  (id ≠ PARAMID_FACTOR → parameterUpdated id s = Halt (ARG_PrmId id) s).
Proof.
  split_and!; [|
    |apply parameterUpdated_other].
  - split.
    + intros Hrun.
      destruct (MathOp_isValid op) eqn:Hop; [|by left].
      destruct (decide (FACTOR_valid s = UNINIT)) as [Hvalid|Hvalid]; [by right|].
      destruct (mathOpIn_handler_Done portNum val1 op val2 s Hop Hvalid)
        as (s' & Hdone & _).
      by rewrite Hdone in Hrun.
    + intros Hcause.
      destruct (mathOpIn_handler_halted portNum val1 op val2 s Hcause) as [arg ->].
      done.
  - intros Hrun.
    destruct (MathOp_isValid op) eqn:Hop;
      [destruct (decide (FACTOR_valid s = UNINIT)) as [Hvalid|Hvalid]|].
    + by rewrite (mathOpIn_handler_Halt_valid _ _ _ _ _ Hop Hvalid).
    + destruct (mathOpIn_handler_Done portNum val1 op val2 s Hop Hvalid)
        as (s' & Hdone & _).
      by rewrite Hdone in Hrun.
    + destruct (mathOpIn_handler_halted portNum val1 op val2 s) as [arg ->];
        [by left|done].
Qed.

(** C8.  When the division yields a non-finite value (as it does for every
    [val1] when [val2] is a zero), [mathOpIn_handler] neither catches nor
    guards it and runs its ordinary course: it returns, the value times the
    factor is still non-finite, and that product is what the result output
    port carries.  The OPERATION_PERFORMED event and the OPERATION telemetry
    write that go with it are emitted as for any other request; they carry
    the operation selector, and no event or telemetry of the handler carries
    the value. *)
Theorem mathOpIn_handler_DIV_not_finite portNum val1 val2 s :
  FACTOR_valid s ≠ UNINIT →
  F32_is_finite (F32_div val1 val2) = false →
  let result := F32_mul (F32_div val1 val2) (FACTOR_value s) in
  F32_is_finite result = false ∧
  (∀ sign, F32_is_finite (F32_div val1 (S754_zero sign)) = false) ∧
  ∃ s', mathOpIn_handler portNum val1 DIV val2 s = Done tt s' ∧
    history s' = history s ++
      [EVENT_OPERATION_PERFORMED DIV; TLM_OPERATION DIV] ++
      delivered s (PORT_mathResultOut 0%Z result) ∧
    port_values (history s') =
      port_values (history s) ++
      match m_mathResultOut_OutputPort s with Some _ => [result] | None => [] end ∧
    sink_values (history s') = sink_values (history s).
Proof.
  intros Hvalid Hdiv result. split_and!.
  - by apply F32_mul_not_finite_l.
  - apply F32_div_zero_not_finite.
  - destruct (mathOpIn_handler_Done portNum val1 DIV val2 s eq_refl Hvalid)
      as (s' & Hrun & Hhist & _).
    exists s'. split_and!; [done|done|..]; rewrite Hhist.
    + unfold port_values, delivered. rewrite !omap_app. simpl.
      by destruct (m_mathResultOut_OutputPort s).
    + unfold sink_values, delivered. rewrite !omap_app. simpl.
      destruct (m_mathResultOut_OutputPort s); simpl; by rewrite app_nil_r.
Qed.

(** C9.  Invoking an output port that has no peer returns at once and
    leaves the component as it was; so does [mathResultOut_out] when the
    result port is unwired, and the whole effect of a run of
    [mathOpIn_handler] that does not halt is then its event and its
    telemetry write. *)
Theorem unconnected_output_port_noop {A} (obs : A → Output) (a : A)
    portNum result val1 op val2 s :
  m_mathResultOut_OutputPort s = None →
  OutputPort_invoke obs None a s = Done tt s ∧
  mathResultOut_out portNum result s = Done tt s ∧
  (halted (mathOpIn_handler portNum val1 op val2 s) = false →
   mathOpIn_handler portNum val1 op val2 s =
     Done tt (set_history
                (history s ++ [EVENT_OPERATION_PERFORMED op; TLM_OPERATION op]) s)).
Proof.
  intros Hport. split_and!; [done| |].
  - unfold mathResultOut_out. unfold_M. by rewrite Hport.
  - intros Hrun.
    destruct (MathOp_isValid op) eqn:Hop;
      [destruct (decide (FACTOR_valid s = UNINIT)) as [Hvalid|Hvalid]|].
    + destruct (mathOpIn_handler_halted portNum val1 op val2 s) as [arg Hhalt];
        [by right|]. by rewrite Hhalt in Hrun.
    + rewrite mathOpIn_handler_straight by done.
      unfold log_ACTIVITY_HI_OPERATION_PERFORMED, tlmWrite_OPERATION,
        mathResultOut_out. unfold_M. simpl. rewrite Hport. simpl.
      by rewrite <- app_assoc.
    + destruct (mathOpIn_handler_halted portNum val1 op val2 s) as [arg Hhalt];
        [by left|]. by rewrite Hhalt in Hrun.
Qed.

End MathOpIn.

(** ** The event throttle *)

Section Throttle.
Context `{Ac : MathReceiverComponentAc}.

(** Arithmetic on the counter, with the threshold taken as an unknown. *)
Ltac throttle_lia :=
  let T := fresh "T" in
  set (T := EVENTID_FACTOR_UPDATED_THROTTLE) in *; clearbody T; lia.

(** One emission attempt: suppressed at the threshold, counted and
    emitted below it. *)
Lemma log_ACTIVITY_HI_FACTOR_UPDATED_Done val s :
  log_ACTIVITY_HI_FACTOR_UPDATED val s =
    if decide (EVENTID_FACTOR_UPDATED_THROTTLE ≤ m_FACTOR_UPDATEDThrottle s)
    then Done tt s
    else Done tt (set_history (history s ++ [EVENT_FACTOR_UPDATED val])
                    (set_throttle (S (m_FACTOR_UPDATEDThrottle s)) s)).
Proof. unfold log_ACTIVITY_HI_FACTOR_UPDATED. unfold_M. by case_decide. Qed.

(** A burst of attempts: the first ones are emitted until the counter
    reaches the threshold, where it stays. *)
Lemma log_FACTOR_UPDATED_each_Done vals s :
  let c := m_FACTOR_UPDATEDThrottle s in
  log_FACTOR_UPDATED_each vals s =
    Done tt
      (set_history
         (history s ++
            (EVENT_FACTOR_UPDATED <$> take (EVENTID_FACTOR_UPDATED_THROTTLE - c) vals))
         (set_throttle
            (c `max` (EVENTID_FACTOR_UPDATED_THROTTLE `min` (c + length vals))) s)).
Proof.
  revert s. induction vals as [|val rest IH]; intros s c; subst c.
  - destruct s. unfold set_history, set_throttle. simpl.
    rewrite take_nil, app_nil_r. do 2 f_equal. throttle_lia.
  - cbn [log_FACTOR_UPDATED_each].
    unfold mbind, M_bind. rewrite log_ACTIVITY_HI_FACTOR_UPDATED_Done.
    case_decide as Hthr; rewrite IH; clear IH.
    + replace (EVENTID_FACTOR_UPDATED_THROTTLE - m_FACTOR_UPDATEDThrottle s)
        with 0 by throttle_lia.
      rewrite !take_0. do 3 f_equal. cbn [length]. throttle_lia.
    + destruct s as [q d p c o h di en]. unfold set_history, set_throttle. simpl in *.
      replace (EVENTID_FACTOR_UPDATED_THROTTLE - c)
        with (S (EVENTID_FACTOR_UPDATED_THROTTLE - S c)) by throttle_lia.
      cbn [take fmap list_fmap length]. rewrite <- app_assoc. simpl app.
      do 2 f_equal. throttle_lia.
Qed.

Lemma CLEAR_EVENT_THROTTLE_cmdHandler_Done opCode cmdSeq s :
  CLEAR_EVENT_THROTTLE_cmdHandler opCode cmdSeq s =
    Done tt (set_history
               (history s ++ [EVENT_THROTTLE_CLEARED; CMD_RESPONSE opCode cmdSeq OK])
               (set_throttle 0 s)).
Proof.
  unfold CLEAR_EVENT_THROTTLE_cmdHandler, log_ACTIVITY_HI_FACTOR_UPDATED_ThrottleClear,
    log_ACTIVITY_HI_THROTTLE_CLEARED, cmdResponse_out. unfold_M.
  simpl. by rewrite <- app_assoc.
Qed.

(** C5.  After [N] consecutive emission attempts of FACTOR_UPDATED, with
    [N] at or above the threshold, the next attempt is suppressed: it
    changes nothing.  Started from a cleared counter, the burst emitted
    exactly its first [threshold] events.  The CLEAR_EVENT_THROTTLE
    command then resets the counter to 0 and emits THROTTLE_CLEARED once,
    followed by the OK response that echoes the opcode and the sequence
    number; after it the next attempt is emitted again (the threshold
    being positive) and counts as the first. *)
Theorem FACTOR_UPDATED_throttle vals val opCode cmdSeq s :
  EVENTID_FACTOR_UPDATED_THROTTLE ≤ length vals →
  0 < EVENTID_FACTOR_UPDATED_THROTTLE →
  ∃ sN sC sR,
    log_FACTOR_UPDATED_each vals s = Done tt sN ∧
    (m_FACTOR_UPDATEDThrottle s = 0 →
     history sN = history s ++
       (EVENT_FACTOR_UPDATED <$> take EVENTID_FACTOR_UPDATED_THROTTLE vals)) ∧
    log_ACTIVITY_HI_FACTOR_UPDATED val sN = Done tt sN ∧
    CLEAR_EVENT_THROTTLE_cmdHandler opCode cmdSeq sN = Done tt sC ∧
    m_FACTOR_UPDATEDThrottle sC = 0 ∧
    history sC = history sN ++
      [EVENT_THROTTLE_CLEARED; CMD_RESPONSE opCode cmdSeq OK] ∧
    log_ACTIVITY_HI_FACTOR_UPDATED val sC = Done tt sR ∧
    history sR = history sC ++ [EVENT_FACTOR_UPDATED val] ∧
    m_FACTOR_UPDATEDThrottle sR = 1.
Proof.
  intros Hlen Hpos. eexists _, _, _. split_and!.
  - apply log_FACTOR_UPDATED_each_Done.
  - intros ->. simpl. by rewrite Nat.sub_0_r.
  - rewrite log_ACTIVITY_HI_FACTOR_UPDATED_Done. simpl.
    case_decide; [done|throttle_lia].
  - apply CLEAR_EVENT_THROTTLE_cmdHandler_Done.
  - done.
  - done.
  - rewrite log_ACTIVITY_HI_FACTOR_UPDATED_Done. simpl.
    case_decide; [throttle_lia|done].
  - done.
  - done.
Qed.

End Throttle.

(** ** The Parameter Store *)

Section ParameterStore.
Context `{Ac : MathReceiverComponentAc}.

Lemma paramSet_unfold id val s :
  paramSet id [val] s =
    (parameterUpdated id;; mret PRM_SET_OK) (stored id val s).
Proof. done. Qed.

Lemma paramGet_FACTOR_stored val s :
  paramGet_FACTOR (stored PARAMID_FACTOR val s) =
    Done (val, VALID) (stored PARAMID_FACTOR val s).
Proof.
  unfold paramGet_FACTOR, paramGet, stored. unfold_M. simpl.
  by rewrite lookup_insert_eq.
Qed.

(** The notification of an update of FACTOR is one emission attempt of
    FACTOR_UPDATED with the value just stored. *)
Lemma parameterUpdated_stored val s :
  parameterUpdated PARAMID_FACTOR (stored PARAMID_FACTOR val s) =
    log_ACTIVITY_HI_FACTOR_UPDATED val (stored PARAMID_FACTOR val s).
Proof.
  unfold parameterUpdated. rewrite decide_True by done.
  unfold mbind, M_bind. by rewrite paramGet_FACTOR_stored.
Qed.

(** The notification never touches the store. *)
Lemma parameterUpdated_params id s :
  m_params (final (parameterUpdated id s)) = m_params s.
Proof.
  unfold parameterUpdated. case_decide; [|done].
  unfold mbind, M_bind. rewrite paramGet_FACTOR_Done.
  destruct (FACTOR_valid s); simpl; try done;
    rewrite log_ACTIVITY_HI_FACTOR_UPDATED_Done; by case_decide.
Qed.

Lemma paramSet_FACTOR_Done val s :
  paramSet PARAMID_FACTOR [val] s =
    Done PRM_SET_OK
      (if decide (EVENTID_FACTOR_UPDATED_THROTTLE ≤ m_FACTOR_UPDATEDThrottle s)
       then stored PARAMID_FACTOR val s
       else set_history (history s ++ [EVENT_FACTOR_UPDATED val])
              (set_throttle (S (m_FACTOR_UPDATEDThrottle s))
                 (stored PARAMID_FACTOR val s))).
Proof.
  rewrite paramSet_unfold. unfold mbind, M_bind.
  rewrite parameterUpdated_stored, log_ACTIVITY_HI_FACTOR_UPDATED_Done. simpl.
  by case_decide.
Qed.

(** C6.  When [set(id, value)] succeeds, [get(id)] returns the value just
    set with validity VALID, and every other parameter reads as it did
    before the set. *)
Theorem paramSet_paramGet id val s s' :
  paramSet id [val] s = Done PRM_SET_OK s' →
  paramGet id s' = Done (val, VALID) s' ∧
  ∀ id', id' ≠ id →
    m_params s' !! id' = m_params s !! id' ∧
    ∃ r, paramGet id' s = Done r s ∧ paramGet id' s' = Done r s'.
Proof.
  intros Hset. rewrite paramSet_unfold in Hset.
  assert (m_params s' = <[id := (val, VALID)]> (m_params s)) as Hparams.
  { pose proof (parameterUpdated_params id (stored id val s)) as Hkeep.
    unfold mbind, M_bind in Hset.
    destruct (parameterUpdated id (stored id val s)) as [[] s1|arg s1]; [|done].
    injection Hset as <-. done. }
  unfold paramGet. unfold_M. rewrite Hparams. split.
  - by rewrite lookup_insert_eq.
  - intros id' Hid'. rewrite lookup_insert_ne by done. eauto.
Qed.

(** C7.  An update of FACTOR by command stores the value as VALID and runs
    [parameterUpdated] before [set] returns.  The callback reads the
    parameter again, finds the new value with validity VALID, so that its
    assertion holds, and makes one emission attempt of FACTOR_UPDATED with
    that value: when [set] returns OK the event is in the history, unless
    the throttle counter of FACTOR_UPDATED stood at the threshold, in which
    case the attempt is suppressed and the update leaves no event. *)
Theorem paramSet_FACTOR_notifies val s :
  let s1 := stored PARAMID_FACTOR val s in
  paramSet PARAMID_FACTOR [val] s =
    (parameterUpdated PARAMID_FACTOR;; mret PRM_SET_OK) s1 ∧
  paramGet_FACTOR s1 = Done (val, VALID) s1 ∧
  parameterUpdated PARAMID_FACTOR s1 = log_ACTIVITY_HI_FACTOR_UPDATED val s1 ∧
  ∃ s', paramSet PARAMID_FACTOR [val] s = Done PRM_SET_OK s' ∧
    paramGet_FACTOR s' = Done (val, VALID) s' ∧
    if decide (EVENTID_FACTOR_UPDATED_THROTTLE ≤ m_FACTOR_UPDATEDThrottle s)
    then history s' = history s ∧
         m_FACTOR_UPDATEDThrottle s' = m_FACTOR_UPDATEDThrottle s
    else history s' = history s ++ [EVENT_FACTOR_UPDATED val] ∧
         m_FACTOR_UPDATEDThrottle s' = S (m_FACTOR_UPDATEDThrottle s).
Proof.
  intros s1. split_and!.
  - apply paramSet_unfold.
  - apply paramGet_FACTOR_stored.
  - apply parameterUpdated_stored.
  - eexists. split; [apply paramSet_FACTOR_Done|].
    pose proof (paramGet_FACTOR_stored val s) as Hget.
    case_decide; [done|].
    split; [|done].
    unfold paramGet_FACTOR, paramGet, stored in *. unfold_M. simpl in *.
    by rewrite lookup_insert_eq.
Qed.

End ParameterStore.

(** ** The Command Dispatcher *)

Section CommandDispatcher.
Context `{Ac : MathReceiverComponentAc}.

Lemma cmdResponses_app h1 h2 :
  cmdResponses (h1 ++ h2) = cmdResponses h1 ++ cmdResponses h2.
Proof. apply omap_app. Qed.

(** Running one command: it returns, and the responses it adds are
    exactly one, with the opcode and the sequence number it was given. *)
Lemma dispatch_Done opCode cmdSeq args s :
  ∃ s', dispatch opCode cmdSeq args s = Done tt s' ∧
    cmdResponses (history s') =
      cmdResponses (history s) ++ [(opCode, cmdSeq, response_status opCode args)].
Proof.
  unfold dispatch, response_status.
  case_decide as Hclear; [|case_decide as Hset].
  - eexists. split; [apply CLEAR_EVENT_THROTTLE_cmdHandler_Done|].
    simpl. rewrite cmdResponses_app. done.
  - destruct args as [|val [|val' args]].
    + eexists. split; [done|]. simpl. rewrite cmdResponses_app. done.
    + eexists. split.
      { unfold mbind, M_bind. rewrite paramSet_FACTOR_Done. done. }
      simpl. rewrite cmdResponses_app.
      case_decide; simpl; [done|]. rewrite cmdResponses_app. simpl.
      by rewrite app_nil_r.
    + eexists. split; [done|]. simpl. rewrite cmdResponses_app. done.
  - eexists. split; [done|]. simpl. rewrite cmdResponses_app. done.
Qed.

(** C3.  Every command given to the dispatcher, whatever its opcode,
    sequence number and arguments, is answered: the dispatch returns and
    adds exactly one command response, which carries that opcode and that
    sequence number.  The status is OK for CLEAR_EVENT_THROTTLE and
    INVALID_OPCODE for an opcode with no registered handler.  The same
    holds of a command taken off the queue by one dispatch step. *)
Theorem dispatch_one_response opCode cmdSeq args s :
  (∃ s', dispatch opCode cmdSeq args s = Done tt s' ∧
     cmdResponses (history s') =
       cmdResponses (history s) ++ [(opCode, cmdSeq, response_status opCode args)]) ∧
  (∀ rest, m_queue s = MSG_cmd opCode cmdSeq args :: rest →
     ∃ s', doDispatch s = Done MSG_DISPATCH_OK s' ∧
       cmdResponses (history s') =
         cmdResponses (history s) ++ [(opCode, cmdSeq, response_status opCode args)]) ∧
  (opCode = OPCODE_CLEAR_EVENT_THROTTLE → response_status opCode args = OK) ∧
  (opCode ≠ OPCODE_CLEAR_EVENT_THROTTLE → opCode ≠ OPCODE_FACTOR_SET →
   response_status opCode args = INVALID_OPCODE).
Proof.
  split_and!.
  - apply dispatch_Done.
  - intros rest Hqueue.
    set (s1 := set_dispatched (dispatched s ++ [MSG_cmd opCode cmdSeq args])
                 (set_queue rest s)).
    destruct (dispatch_Done opCode cmdSeq args s1) as (s1' & Hrun1 & Hresp1).
    exists s1'. split; [|done].
    unfold doDispatch. unfold_M. rewrite Hqueue. fold s1. by rewrite Hrun1.
  - intros Hclear. unfold response_status. by rewrite decide_True.
  - intros Hclear Hset. unfold response_status. by rewrite !decide_False.
Qed.

End CommandDispatcher.

(** ** The dispatch pass *)

Section DispatchPass.
Context `{Ac : MathReceiverComponentAc}.

(** One dispatch step on a non-empty queue takes the oldest message off
    and runs its handler, which can only append to the queue. *)
Lemma doDispatch_step msg rest s :
  m_queue s = msg :: rest →
  let r := (doDispatch;; mret tt) s in
  dispatched (final r) = dispatched s ++ [msg] ∧
  ∃ new, m_queue (final r) = rest ++ new ∧
         enqueued (final r) = enqueued s ++ new.
Proof.
  intros Hqueue r. subst r. unfold doDispatch. unfold_M. rewrite Hqueue.
  set (s1 := set_dispatched (dispatched s ++ [msg]) (set_queue rest s)).
  assert (∀ h : M unit, appends_only h →
    let r := match match h s1 with
                   | Done _ s' => Done MSG_DISPATCH_OK s'
                   | Halt arg s' => Halt arg s'
                   end with
             | Done _ s' => Done tt s'
             | Halt arg s' => Halt arg s'
             end in
    dispatched (final r) = dispatched s ++ [msg] ∧
    ∃ new, m_queue (final r) = rest ++ new ∧
           enqueued (final r) = enqueued s ++ new) as Hh.
  { intros h Hh. destruct (Hh s1) as [Hd Hq].
    destruct (h s1) as [a s'|arg s']; simpl in *; by rewrite Hd. }
  destruct msg as [portNum val1 op val2|opCode cmdSeq args].
  - apply Hh, appends_only_mathOpIn_handler.
  - apply Hh, appends_only_dispatch.
Qed.

(** The loop of the pass, run for at most as many iterations as there are
    messages queued: it takes [k] messages off the head of the queue, in
    order, all [n] of them if it returns and at least one if it halts, and
    leaves behind the others followed by what arrived in the meantime. *)
Lemma for_U32_doDispatch n s :
  n ≤ length (m_queue s) →
  let r := for_U32 n (doDispatch;; mret tt) s in
  ∃ k new,
    (if halted r then 0 < k ≤ n else k = n) ∧
    dispatched (final r) = dispatched s ++ take k (m_queue s) ∧
    m_queue (final r) = drop k (m_queue s) ++ new ∧
    enqueued (final r) = enqueued s ++ new.
Proof.
  revert s. induction n as [|n IH]; intros s Hn r; subst r.
  - exists 0, []. simpl. rewrite take_0, drop_0, !app_nil_r. done.
  - destruct (m_queue s) as [|msg rest] eqn:Hqueue; [simpl in Hn; lia|].
    destruct (doDispatch_step msg rest s Hqueue) as (Hd & new1 & Hq & He).
    cbn [for_U32].
    destruct ((doDispatch;; mret tt) s) as [[] s1|arg s1] eqn:Hstep;
      simpl in Hd, Hq, He;
      [rewrite (bind_Done _ _ _ _ _ Hstep)|rewrite (bind_Halt _ _ _ _ _ Hstep)].
    + destruct (IH s1) as (k & new2 & Hk & Hd2 & Hq2 & He2).
      { rewrite Hq, length_app. simpl in Hn. lia. }
      assert (k ≤ length rest) as Hkrest.
      { simpl in Hn. destruct (halted _); lia. }
      exists (S k), (new1 ++ new2). split_and!.
      * destruct (halted _); lia.
      * rewrite Hd2, Hd, Hq, take_app_le by done.
        by rewrite <- app_assoc.
      * rewrite Hq2, Hq, drop_app_le by done.
        by rewrite <- app_assoc.
      * rewrite He2, He. by rewrite <- app_assoc.
    + exists 1, new1. simpl. rewrite take_0, drop_0. split_and!; [lia|lia|done..].
Qed.

(** Once FACTOR is loaded it stays so: no handler makes it UNINITIALIZED
    again, and a handler given a message that is [Message_ok] returns. *)
Lemma doDispatch_returns msg rest s :
  m_queue s = msg :: rest →
  Message_ok msg = true →
  FACTOR_valid s ≠ UNINIT →
  ∃ s', (doDispatch;; mret tt) s = Done tt s' ∧ FACTOR_valid s' ≠ UNINIT.
Proof.
  intros Hqueue Hok Hvalid. unfold doDispatch. unfold_M. rewrite Hqueue.
  set (s1 := set_dispatched (dispatched s ++ [msg]) (set_queue rest s)).
  assert (FACTOR_valid s1 ≠ UNINIT) as Hvalid1 by done.
  destruct msg as [portNum val1 op val2|opCode cmdSeq args]; simpl in Hok.
  - destruct (mathOpIn_handler_Done portNum val1 op val2 s1 Hok Hvalid1)
      as (s' & -> & _ & Hparams & _).
    exists s'. split; [done|]. unfold FACTOR_valid in *. by rewrite Hparams.
  - unfold dispatch. case_decide; [|case_decide].
    + rewrite CLEAR_EVENT_THROTTLE_cmdHandler_Done. by eexists.
    + destruct args as [|val [|val' args]]; [by eexists| |by eexists].
      unfold mbind, M_bind. rewrite paramSet_FACTOR_Done. simpl.
      eexists. split; [done|].
      unfold FACTOR_valid, stored. case_decide; simpl; by rewrite lookup_insert_eq.
    + by eexists.
Qed.

(** With FACTOR loaded and the first [n] queued messages [Message_ok], the
    loop of the pass runs its [n] iterations and returns. *)
Lemma for_U32_doDispatch_returns n s :
  n ≤ length (m_queue s) →
  Forall (λ msg, Message_ok msg = true) (take n (m_queue s)) →
  FACTOR_valid s ≠ UNINIT →
  halted (for_U32 n (doDispatch;; mret tt) s) = false.
Proof.
  revert s. induction n as [|n IH]; intros s Hn Hok Hvalid; [done|].
  destruct (m_queue s) as [|msg rest] eqn:Hqueue; [simpl in Hn; lia|].
  simpl in Hn, Hok. apply Forall_cons in Hok as [Hmsg Hrest].
  destruct (doDispatch_returns msg rest s Hqueue Hmsg Hvalid) as (s' & Hstep & Hvalid').
  destruct (doDispatch_step msg rest s Hqueue) as (_ & new & Hq & _).
  rewrite Hstep in Hq. simpl in Hq.
  cbn [for_U32]. rewrite (bind_Done _ _ _ _ _ Hstep).
  apply IH; [rewrite Hq, length_app; lia| |done].
  rewrite Hq, take_app_le by lia. done.
Qed.

(** A pass over a queue of messages that are all [Message_ok], with FACTOR
    loaded, returns. *)
Lemma schedIn_handler_returns portNum context s :
  Forall (λ msg, Message_ok msg = true) (m_queue s) →
  FACTOR_valid s ≠ UNINIT →
  halted (schedIn_handler portNum context s) = false.
Proof.
  intros Hok Hvalid. unfold schedIn_handler, getMessagesAvailable. unfold_M.
  apply for_U32_doDispatch_returns; [done| |done].
  by rewrite firstn_all.
Qed.

(** C2.  One invocation of [schedIn_handler] reads the number [n] of
    messages queued and runs [n] dispatch steps.  If it returns, it has
    dispatched exactly the [n] messages that were in the queue at the
    start, oldest first, and every message accepted by the queue during
    the pass is still queued, left for a later tick.  If a handler fails a
    fatal assertion the pass halts at that message: it has then dispatched
    a non-empty prefix of those [n] messages, and the queue keeps the rest
    of them followed by the messages that arrived during the pass. *)
Theorem schedIn_handler_bounded_drain portNum context s :
  match schedIn_handler portNum context s with
  | Done _ s' =>
      dispatched s' = dispatched s ++ m_queue s ∧
      length (dispatched s') = length (dispatched s) + length (m_queue s) ∧
      enqueued s' = enqueued s ++ m_queue s'
  | Halt _ s' =>
      ∃ k new, 0 < k ≤ length (m_queue s) ∧
        dispatched s' = dispatched s ++ take k (m_queue s) ∧
        m_queue s' = drop k (m_queue s) ++ new ∧
        enqueued s' = enqueued s ++ new
  end.
Proof.
  unfold schedIn_handler, getMessagesAvailable. unfold_M.
  destruct (for_U32_doDispatch (length (m_queue s)) s)
    as (k & new & Hk & Hd & Hq & He); [done|].
  destruct (for_U32 _ _ s) as [[] s'|arg s']; simpl in *.
  - subst k. rewrite firstn_all in Hd. rewrite drop_all in Hq. simpl in Hq.
    split_and!; [done| |congruence].
    by rewrite Hd, length_app.
  - by exists k, new.
Qed.

(** C10.  [schedIn_handler] does not look at its arguments: two
    invocations on the same component state, whatever their port numbers
    and call-order contexts, run identically; they dispatch the same
    messages and end, returned or halted, in the same state. *)
Theorem schedIn_handler_ignores_arguments
    portNum1 context1 portNum2 context2 s :
  schedIn_handler portNum1 context1 s = schedIn_handler portNum2 context2 s ∧
  final (schedIn_handler portNum1 context1 s) =
    final (schedIn_handler portNum2 context2 s) ∧
  length (dispatched (final (schedIn_handler portNum1 context1 s))) =
    length (dispatched (final (schedIn_handler portNum2 context2 s))).
Proof. done. Qed.

End DispatchPass.

(** * Further properties of the handlers *)

(** ** Binary32 arithmetic *)

(** Multiplying a well-formed value by 1.0 gives the value back: the
    product of the mantissas is the mantissa shifted left by 23 bits, which
    the rounding shifts back without loss. *)
Lemma F32_mul_1_r (x : F32) : F32_valid x = true → F32_mul x F32_1_0 = x.
Proof.
  destruct x as [s|s| |s m e]; try done; try (by destruct s).
  unfold F32_valid, valid_binary, bounded, canonical_mantissa.
  intros [Hcanon Hbound]%andb_prop.
  apply Z.eqb_eq in Hcanon. apply Z.leb_le in Hbound.
  unfold F32_mul, SFmul, F32_1_0. rewrite xorb_false_r, Pos.mul_comm.
  change (8388608 * m)%positive with (Pos.iter xO m 23). cbn [Pos.iter].
  unfold binary_round_aux, shr_fexp. cbn [shr_record_of_loc Zdigits2 digits2_pos].
  rewrite !Pos2Z.inj_succ.
  match goal with
  | |- context [fexp _ _ (?d + (e + -23))%Z] =>
      replace (d + (e + -23))%Z with (Z.pos (digits2_pos m) + e)%Z by lia
  end.
  rewrite Hcanon.
  replace (e - (e + -23))%Z with 23%Z by lia.
  cbn [shr].
  match goal with
  | |- context [SpecFloat.iter_pos shr_1 23 ?r] =>
      change (SpecFloat.iter_pos shr_1 23 r)
        with {| shr_m := Z.pos m; shr_r := false; shr_s := false |}
  end.
  cbn [shr_m loc_of_shr_record round_nearest_even Zdigits2].
  replace (e + -23 + 23)%Z with e by lia.
  rewrite Hcanon, Z.sub_diag. cbn [shr shr_m].
  unfold F32_emax, F32_prec in *.
  destruct (Z.leb_spec e (128 - 24)%Z) as [_|?]; [done|lia].
Qed.

Lemma F32_add_comm (x y : F32) : F32_add x y = F32_add y x.
Proof.
  destruct x as [sx|sx| |sx mx ex], y as [sy|sy| |sy my ey]; try done;
    try (by destruct sx, sy).
  unfold F32_add, SFadd. by rewrite (Z.min_comm ey ex), Z.add_comm.
Qed.

Lemma F32_mul_comm (x y : F32) : F32_mul x y = F32_mul y x.
Proof.
  destruct x as [sx|sx| |sx mx ex], y as [sy|sy| |sy my ey]; try done;
    try (by destruct sx, sy).
  unfold F32_mul, SFmul.
  by rewrite (xorb_comm sy sx), (Pos.mul_comm my mx), (Z.add_comm ey ex).
Qed.

Lemma spec_operator_nan op val1 val2 :
  MathOp_isValid op = true →
  F32_is_nan val1 = true ∨ F32_is_nan val2 = true →
  spec_operator op val1 val2 = S754_nan.
Proof.
  intros Hop Hnan.
  destruct op; try done;
    destruct val1, val2; try done; destruct Hnan; done.
Qed.

Lemma F32_mul_nan_r (x : F32) : F32_mul x S754_nan = S754_nan.
Proof. by destruct x. Qed.

(** ** What a handler leaves alone *)

Lemma enqueueAll_queueDepth msgs s :
  m_queueDepth (final (enqueueAll msgs s)) = m_queueDepth s.
Proof.
  revert s. induction msgs as [|msg rest IH]; intros s; [done|].
  simpl. unfold_M. unfold enqueue. case_decide; by rewrite IH.
Qed.

Lemma mathResultOut_out_keeps portNum result s :
  m_mathResultOut_OutputPort (final (mathResultOut_out portNum result s)) =
    m_mathResultOut_OutputPort s ∧
  m_queueDepth (final (mathResultOut_out portNum result s)) = m_queueDepth s.
Proof.
  unfold mathResultOut_out, OutputPort_invoke. unfold_M.
  destruct (m_mathResultOut_OutputPort s) as [handler|] eqn:Hport; [|done].
  rewrite enqueueAll_queueDepth. split; [|done].
  edestruct enqueueAll_Done as (s' & Hrun & _ & _ & _ & Hkeep).
  rewrite Hrun. simpl. by rewrite Hkeep.
Qed.

Section FurtherProperties.
Context `{Ac : MathReceiverComponentAc}.

(** A request changes neither the wiring of the result port nor the
    capacity of the queue. *)
Lemma mathOpIn_handler_wiring portNum val1 op val2 s :
  m_mathResultOut_OutputPort (final (mathOpIn_handler portNum val1 op val2 s)) =
    m_mathResultOut_OutputPort s ∧
  m_queueDepth (final (mathOpIn_handler portNum val1 op val2 s)) = m_queueDepth s.
Proof.
  destruct (MathOp_isValid op) eqn:Hop;
    [destruct (decide (FACTOR_valid s = UNINIT)) as [Hvalid|Hvalid]|].
  - by rewrite (mathOpIn_handler_Halt_valid _ _ _ _ _ Hop Hvalid).
  - rewrite mathOpIn_handler_straight by done.
    unfold log_ACTIVITY_HI_OPERATION_PERFORMED, tlmWrite_OPERATION.
    unfold mbind, M_bind, record, modify. cbn beta iota.
    match goal with
    | |- context [mathResultOut_out ?p ?r ?s0] =>
        destruct (mathResultOut_out_keeps p r s0) as [Hport Hdepth]
    end.
    by rewrite Hport, Hdepth.
  - destruct (mathOpIn_handler_halted portNum val1 op val2 s) as [arg ->];
      [by left|done].
Qed.

(** X1.  The checks of [mathOpIn_handler] come in the order of the
    source: an out-of-range selector fails its assertion first, with the
    selector as the argument, even when FACTOR is uninitialized too; with a
    valid selector an UNINITIALIZED FACTOR fails the second assertion, with
    the validity as the argument.  Either way the state is the one the
    handler started from. *)
Theorem mathOpIn_handler_assert_order portNum val1 op val2 s :
  (MathOp_isValid op = false →
   mathOpIn_handler portNum val1 op val2 s = Halt (ARG_MathOp op) s) ∧
  (MathOp_isValid op = true → FACTOR_valid s = UNINIT →
   mathOpIn_handler portNum val1 op val2 s = Halt (ARG_ParamValid UNINIT) s).
Proof.
  split.
  - intros Hop. by destruct op.
  - apply mathOpIn_handler_Halt_valid.
Qed.

(** X2.  Whether it returns or halts, [mathOpIn_handler] reads FACTOR and
    never writes it: the parameter store, the throttle counter of
    FACTOR_UPDATED, the wiring of the result port and the capacity of the
    queue are as before, and no message was taken off the queue. *)
Theorem mathOpIn_handler_frame portNum val1 op val2 s :
  let s' := final (mathOpIn_handler portNum val1 op val2 s) in
  m_params s' = m_params s ∧
  m_FACTOR_UPDATEDThrottle s' = m_FACTOR_UPDATEDThrottle s ∧
  m_mathResultOut_OutputPort s' = m_mathResultOut_OutputPort s ∧
  m_queueDepth s' = m_queueDepth s ∧
  dispatched s' = dispatched s.
Proof.
  intros s'. subst s'.
  destruct (mathOpIn_handler_wiring portNum val1 op val2 s) as [Hport Hdepth].
  destruct (appends_only_mathOpIn_handler portNum val1 op val2 s) as [Hdisp _].
  split_and!; [| |done|done|done].
  - destruct (MathOp_isValid op) eqn:Hop;
      [destruct (decide (FACTOR_valid s = UNINIT)) as [Hvalid|Hvalid]|].
    + by rewrite (mathOpIn_handler_Halt_valid _ _ _ _ _ Hop Hvalid).
    + by destruct (mathOpIn_handler_Done portNum val1 op val2 s Hop Hvalid)
        as (s' & -> & _ & Hparams & _).
    + by destruct (mathOpIn_handler_halted portNum val1 op val2 s) as [arg ->];
        [left|].
  - destruct (MathOp_isValid op) eqn:Hop;
      [destruct (decide (FACTOR_valid s = UNINIT)) as [Hvalid|Hvalid]|].
    + by rewrite (mathOpIn_handler_Halt_valid _ _ _ _ _ Hop Hvalid).
    + by destruct (mathOpIn_handler_Done portNum val1 op val2 s Hop Hvalid)
        as (s' & -> & _ & _ & Hthrottle).
    + by destruct (mathOpIn_handler_halted portNum val1 op val2 s) as [arg ->];
        [left|].
Qed.

(** X3.  [parameterUpdated] on PARAMID_FACTOR halts exactly when FACTOR is
    UNINITIALIZED, with the validity as the argument of the assertion and
    the state untouched.  Otherwise it returns after one emission attempt of
    FACTOR_UPDATED with the value found in the store: nothing changes if the
    throttle counter stands at the threshold, else the event is appended
    and the counter goes up by one.  It never writes the store. *)
Theorem parameterUpdated_FACTOR s :
  (FACTOR_valid s = UNINIT →
   parameterUpdated PARAMID_FACTOR s = Halt (ARG_ParamValid UNINIT) s) ∧
  (FACTOR_valid s ≠ UNINIT →
   parameterUpdated PARAMID_FACTOR s =
     if decide (EVENTID_FACTOR_UPDATED_THROTTLE ≤ m_FACTOR_UPDATEDThrottle s)
     then Done tt s
     else Done tt (set_history (history s ++ [EVENT_FACTOR_UPDATED (FACTOR_value s)])
                     (set_throttle (S (m_FACTOR_UPDATEDThrottle s)) s))) ∧
  m_params (final (parameterUpdated PARAMID_FACTOR s)) = m_params s.
Proof.
  split_and!; [| |apply parameterUpdated_params].
  - intros Hvalid. unfold parameterUpdated. rewrite decide_True by done.
    unfold mbind, M_bind. rewrite paramGet_FACTOR_Done, Hvalid. done.
  - intros Hvalid. unfold parameterUpdated. rewrite decide_True by done.
    unfold mbind, M_bind. rewrite paramGet_FACTOR_Done.
    rewrite <- log_ACTIVITY_HI_FACTOR_UPDATED_Done.
    by destruct (FACTOR_valid s).
Qed.

(** X4.  [CLEAR_EVENT_THROTTLE_cmdHandler] is unconditional: it never halts
    and looks neither at the throttle counter nor at the opcode.  Run twice
    in a row, the second run, on a throttle that is already clear, again
    emits THROTTLE_CLEARED and again answers OK with the opcode and the
    sequence number it was passed; the counter is 0 after each run, and the
    parameter store and the queue are never touched. *)
Theorem CLEAR_EVENT_THROTTLE_twice opCode1 cmdSeq1 opCode2 cmdSeq2 s :
  ∃ s1 s2,
    CLEAR_EVENT_THROTTLE_cmdHandler opCode1 cmdSeq1 s = Done tt s1 ∧
    CLEAR_EVENT_THROTTLE_cmdHandler opCode2 cmdSeq2 s1 = Done tt s2 ∧
    m_FACTOR_UPDATEDThrottle s1 = 0 ∧ m_FACTOR_UPDATEDThrottle s2 = 0 ∧
    history s2 = history s ++
      [EVENT_THROTTLE_CLEARED; CMD_RESPONSE opCode1 cmdSeq1 OK;
       EVENT_THROTTLE_CLEARED; CMD_RESPONSE opCode2 cmdSeq2 OK] ∧
    m_params s2 = m_params s ∧ m_queue s2 = m_queue s.
Proof.
  eexists _, _. split_and!; try apply CLEAR_EVENT_THROTTLE_cmdHandler_Done; try done.
  simpl. by rewrite <- app_assoc.
Qed.

(** X5.  A run of updates of FACTOR by command never halts, whatever the
    state it starts in.  It reports the values in order until the throttle
    counter reaches the threshold and none after that, while the store
    takes every value: at the end FACTOR holds the last value of the run,
    VALID, even when that value was never reported. *)
Theorem paramSet_FACTOR_each_Done vals s :
  ∃ s', paramSet_FACTOR_each vals s = Done tt s' ∧
    history s' = history s ++
      (EVENT_FACTOR_UPDATED <$>
         take (EVENTID_FACTOR_UPDATED_THROTTLE - m_FACTOR_UPDATEDThrottle s) vals) ∧
    m_FACTOR_UPDATEDThrottle s' =
      m_FACTOR_UPDATEDThrottle s
        `max` (EVENTID_FACTOR_UPDATED_THROTTLE
                 `min` (m_FACTOR_UPDATEDThrottle s + length vals)) ∧
    (∀ val, last vals = Some val → paramGet_FACTOR s' = Done (val, VALID) s').
Proof.
  revert s. induction vals as [|val rest IH]; intros s.
  - exists s. split_and!; [done| | |done].
    + by rewrite take_nil, app_nil_r.
    + set (T := EVENTID_FACTOR_UPDATED_THROTTLE). clearbody T. simpl. lia.
  - cbn [paramSet_FACTOR_each].
    rewrite (bind_Done _ _ _ _ _ (paramSet_FACTOR_Done val s)).
    set (T := EVENTID_FACTOR_UPDATED_THROTTLE) in *.
    match goal with
    | |- context [paramSet_FACTOR_each rest ?s0] => set (s1 := s0)
    end.
    assert (paramGet_FACTOR s1 = Done (val, VALID) s1) as Hget1.
    { subst s1. unfold paramGet_FACTOR, paramGet, stored. unfold_M.
      case_decide; simpl; by rewrite lookup_insert_eq. }
    destruct (IH s1) as (s' & Hrun & Hhist & Hthr & Hlast).
    exists s'. split; [done|].
    assert (rest = [] → s' = s1) as Hnil.
    { intros ->. simpl in Hrun. by injection Hrun. }
    split_and!.
    + rewrite Hhist. subst s1. clearbody T. case_decide as Hc; simpl.
      * replace (T - m_FACTOR_UPDATEDThrottle s) with 0 by lia. by rewrite !take_0.
      * replace (T - m_FACTOR_UPDATEDThrottle s)
          with (S (T - S (m_FACTOR_UPDATEDThrottle s))) by lia.
        simpl. by rewrite <- app_assoc.
    + rewrite Hthr. subst s1. clearbody T. case_decide as Hc; simpl; lia.
    + intros val'. destruct rest as [|val2 rest'].
      * simpl. intros [= <-]. by rewrite Hnil.
      * intros Hval'. by apply Hlast.
Qed.

(** X6.  A request handled right after an update of FACTOR by command
    never halts on the validity check, even if FACTOR had never been loaded
    before, and it is scaled by the new factor: it delivers
    [operator(val1, val2) * factor]. *)
Theorem request_after_update factor portNum val1 op val2 s :
  MathOp_isValid op = true →
  ∃ s1 s2,
    paramSet PARAMID_FACTOR [factor] s = Done PRM_SET_OK s1 ∧
    mathOpIn_handler portNum val1 op val2 s1 = Done tt s2 ∧
    history s2 = history s1 ++
      [EVENT_OPERATION_PERFORMED op; TLM_OPERATION op] ++
      delivered s (PORT_mathResultOut 0%Z
                     (F32_mul (spec_operator op val1 val2) factor)).
Proof.
  intros Hop. eexists. rewrite paramSet_FACTOR_Done.
  match goal with |- ∃ s2, Done _ ?s0 = _ ∧ _ => set (s1 := s0) end.
  assert (FACTOR_valid s1 = VALID ∧ FACTOR_value s1 = factor ∧
          m_mathResultOut_OutputPort s1 = m_mathResultOut_OutputPort s)
    as (Hvalid & Hvalue & Hport).
  { subst s1. unfold FACTOR_valid, FACTOR_value, stored.
    case_decide; simpl; by rewrite lookup_insert_eq. }
  destruct (mathOpIn_handler_Done portNum val1 op val2 s1 Hop)
    as (s2 & Hrun & Hhist & _); [by rewrite Hvalid|].
  exists s2. split_and!; [done|done|].
  rewrite Hhist, Hvalue. unfold delivered. by rewrite Hport.
Qed.

(** X7.  Requests do not interfere: after a first request has been
    handled, a second one is computed from its own operands and the factor
    that was in the store before the first, and the two bring their
    observations in the order in which they were handled. *)
Theorem requests_independent portNumA valA1 opA valA2 portNumB valB1 opB valB2 s :
  MathOp_isValid opA = true → MathOp_isValid opB = true →
  FACTOR_valid s ≠ UNINIT →
  ∃ s1 s2,
    mathOpIn_handler portNumA valA1 opA valA2 s = Done tt s1 ∧
    mathOpIn_handler portNumB valB1 opB valB2 s1 = Done tt s2 ∧
    history s2 = history s ++
      ([EVENT_OPERATION_PERFORMED opA; TLM_OPERATION opA] ++
       delivered s (PORT_mathResultOut 0%Z
                      (F32_mul (spec_operator opA valA1 valA2) (FACTOR_value s)))) ++
      ([EVENT_OPERATION_PERFORMED opB; TLM_OPERATION opB] ++
       delivered s (PORT_mathResultOut 0%Z
                      (F32_mul (spec_operator opB valB1 valB2) (FACTOR_value s)))).
Proof.
  intros HopA HopB Hvalid.
  destruct (mathOpIn_handler_Done portNumA valA1 opA valA2 s HopA Hvalid)
    as (s1 & Hrun1 & Hhist1 & Hparams1 & _).
  destruct (mathOpIn_handler_wiring portNumA valA1 opA valA2 s) as [Hport _].
  rewrite Hrun1 in Hport. simpl in Hport.
  assert (FACTOR_valid s1 = FACTOR_valid s ∧ FACTOR_value s1 = FACTOR_value s)
    as [Hvalid1 Hvalue1] by (unfold FACTOR_valid, FACTOR_value; by rewrite Hparams1).
  destruct (mathOpIn_handler_Done portNumB valB1 opB valB2 s1 HopB)
    as (s2 & Hrun2 & Hhist2 & _); [by rewrite Hvalid1|].
  exists s1, s2. split_and!; [done|done|].
  rewrite Hhist2, Hhist1, Hvalue1. unfold delivered. rewrite Hport.
  by rewrite <- !app_assoc.
Qed.

(** X8.  NaN goes through: with a valid selector and FACTOR loaded, a NaN
    operand or a NaN factor makes the handler deliver NaN on the result
    port, after the usual event and telemetry write; nothing replaces or
    withholds it. *)
Theorem mathOpIn_handler_NaN portNum val1 op val2 s :
  MathOp_isValid op = true →
  FACTOR_valid s ≠ UNINIT →
  F32_is_nan val1 = true ∨ F32_is_nan val2 = true ∨
    F32_is_nan (FACTOR_value s) = true →
  ∃ s', mathOpIn_handler portNum val1 op val2 s = Done tt s' ∧
    history s' = history s ++
      [EVENT_OPERATION_PERFORMED op; TLM_OPERATION op] ++
      delivered s (PORT_mathResultOut 0%Z S754_nan).
Proof.
  intros Hop Hvalid Hnan.
  destruct (mathOpIn_handler_Done portNum val1 op val2 s Hop Hvalid)
    as (s' & Hrun & Hhist & _).
  assert (F32_mul (spec_operator op val1 val2) (FACTOR_value s) = S754_nan) as Hres.
  { destruct Hnan as [Hnan|[Hnan|Hnan]].
    - by rewrite spec_operator_nan by auto.
    - by rewrite spec_operator_nan by auto.
    - destruct (FACTOR_value s); try done. apply F32_mul_nan_r. }
  exists s'. split; [done|]. by rewrite Hhist, Hres.
Qed.

(** X9.  With FACTOR holding 1.0 the scaling is the identity: a request
    delivers [operator(val1, val2)] itself, for every selector and every
    pair of operands whose result is a well-formed binary32 value. *)
Theorem mathOpIn_handler_factor_one portNum val1 op val2 s :
  MathOp_isValid op = true →
  FACTOR_valid s ≠ UNINIT →
  FACTOR_value s = F32_1_0 →
  F32_valid (spec_operator op val1 val2) = true →
  ∃ s', mathOpIn_handler portNum val1 op val2 s = Done tt s' ∧
    history s' = history s ++
      [EVENT_OPERATION_PERFORMED op; TLM_OPERATION op] ++
      delivered s (PORT_mathResultOut 0%Z (spec_operator op val1 val2)).
Proof.
  intros Hop Hvalid Hone Hwf.
  destruct (mathOpIn_handler_Done portNum val1 op val2 s Hop Hvalid)
    as (s' & Hrun & Hhist & _).
  exists s'. split; [done|]. by rewrite Hhist, Hone, F32_mul_1_r.
Qed.

(** X10.  An ADD or a MUL request is symmetric in its operands: with the
    operands swapped the handler runs identically, to the same state and
    the same delivered value. *)
Theorem mathOpIn_handler_commutative portNum val1 op val2 s :
  op = ADD ∨ op = MUL →
  mathOpIn_handler portNum val1 op val2 s = mathOpIn_handler portNum val2 op val1 s.
Proof.
  intros [-> | ->]; unfold mathOpIn_handler.
  - by rewrite (F32_add_comm val1 val2).
  - by rewrite (F32_mul_comm val1 val2).
Qed.

(** ** Ticks *)

(** What one tick does to the queue: it takes [k] messages off its head,
    all of them if it returns and at least one if it halts, and leaves the
    others followed by the newcomers. *)
Lemma schedIn_handler_run portNum context s :
  ∃ k new,
    (if halted (schedIn_handler portNum context s)
     then 0 < k ≤ length (m_queue s) else k = length (m_queue s)) ∧
    dispatched (final (schedIn_handler portNum context s)) =
      dispatched s ++ take k (m_queue s) ∧
    m_queue (final (schedIn_handler portNum context s)) =
      drop k (m_queue s) ++ new ∧
    enqueued (final (schedIn_handler portNum context s)) = enqueued s ++ new.
Proof.
  unfold schedIn_handler, getMessagesAvailable. unfold_M.
  by apply for_U32_doDispatch.
Qed.

Lemma schedIn_handler_Done_inv portNum context s s' :
  schedIn_handler portNum context s = Done tt s' →
  dispatched s' = dispatched s ++ m_queue s ∧
  enqueued s' = enqueued s ++ m_queue s'.
Proof.
  intros Hrun.
  destruct (schedIn_handler_run portNum context s) as (k & new & Hk & Hd & Hq & He).
  rewrite Hrun in Hk, Hd, Hq, He. simpl in *. subst k.
  rewrite firstn_all in Hd. rewrite drop_all in Hq. simpl in Hq.
  split; congruence.
Qed.

(** With FACTOR loaded and the first [n] queued messages [Message_ok], the
    loop of the pass returns and FACTOR is still loaded. *)
Lemma for_U32_doDispatch_safe n s :
  n ≤ length (m_queue s) →
  Forall (λ msg, Message_ok msg = true) (take n (m_queue s)) →
  FACTOR_valid s ≠ UNINIT →
  ∃ s', for_U32 n (doDispatch;; mret tt) s = Done tt s' ∧
    FACTOR_valid s' ≠ UNINIT.
Proof.
  revert s. induction n as [|n IH]; intros s Hn Hok Hvalid; [by exists s|].
  destruct (m_queue s) as [|msg rest] eqn:Hqueue; [simpl in Hn; lia|].
  simpl in Hn, Hok. apply Forall_cons in Hok as [Hmsg Hrest].
  destruct (doDispatch_returns msg rest s Hqueue Hmsg Hvalid) as (s1 & Hstep & Hvalid1).
  destruct (doDispatch_step msg rest s Hqueue) as (_ & new & Hq & _).
  rewrite Hstep in Hq. simpl in Hq.
  cbn [for_U32]. rewrite (bind_Done _ _ _ _ _ Hstep).
  apply IH; [rewrite Hq, length_app; lia| |done].
  rewrite Hq, take_app_le by lia. done.
Qed.

(** X11.  A tick on an empty queue returns at once and changes nothing,
    and only such a tick does: on a non-empty queue the state after the
    tick, returned or halted, is never the state before it. *)
Theorem schedIn_handler_idle portNum context s :
  (m_queue s = [] → schedIn_handler portNum context s = Done tt s) ∧
  (final (schedIn_handler portNum context s) = s → m_queue s = []).
Proof.
  split.
  - intros Hqueue. unfold schedIn_handler, getMessagesAvailable. unfold_M.
    by rewrite Hqueue.
  - intros Hsame.
    destruct (schedIn_handler_run portNum context s) as (k & new & Hk & Hd & _).
    rewrite Hsame in Hd.
    assert (take k (m_queue s) = []) as Hnone.
    { apply (app_inv_head (dispatched s)). by rewrite app_nil_r. }
    apply (f_equal length) in Hnone. rewrite length_take in Hnone. simpl in Hnone.
    destruct (halted _); [lia|].
    apply length_zero_iff_nil. lia.
Qed.

(** X12.  Two ticks in a row that both return: the second dispatches
    exactly the messages the queue accepted during the first, so that over
    the two ticks the messages are dispatched in their order of arrival,
    those present at the start first; what arrived during the second tick
    is left queued. *)
Theorem schedIn_handler_two_ticks portNum1 context1 portNum2 context2 s s1 s2 :
  schedIn_handler portNum1 context1 s = Done tt s1 →
  schedIn_handler portNum2 context2 s1 = Done tt s2 →
  enqueued s1 = enqueued s ++ m_queue s1 ∧
  dispatched s2 = dispatched s ++ m_queue s ++ m_queue s1 ∧
  enqueued s2 = enqueued s ++ m_queue s1 ++ m_queue s2.
Proof.
  intros [Hd1 He1]%schedIn_handler_Done_inv [Hd2 He2]%schedIn_handler_Done_inv.
  split_and!; [done| |].
  - by rewrite Hd2, Hd1, <- app_assoc.
  - by rewrite He2, He1, <- app_assoc.
Qed.

(** X13.  A tick loses, repeats and reorders nothing: if every message the
    queue accepted so far is either dispatched or still queued, in the order
    of arrival, then the same holds after the tick, whether it returned or
    halted on an assertion. *)
Theorem schedIn_handler_conserves portNum context s :
  conserved s → conserved (final (schedIn_handler portNum context s)).
Proof.
  unfold conserved. intros Hs.
  destruct (schedIn_handler_run portNum context s) as (k & new & _ & Hd & Hq & He).
  rewrite He, Hd, Hq, Hs, <- !app_assoc. f_equal.
  by rewrite (app_assoc (take k _)), take_drop.
Qed.

(** X14.  With FACTOR loaded, a tick over a queue whose requests all carry
    a valid selector never halts, however many commands are queued among
    them and whatever the peer of the result port sends back: it returns,
    has dispatched the whole initial queue, and FACTOR is still loaded. *)
Theorem schedIn_handler_safe portNum context s :
  Forall (λ msg, Message_ok msg = true) (m_queue s) →
  FACTOR_valid s ≠ UNINIT →
  ∃ s', schedIn_handler portNum context s = Done tt s' ∧
    FACTOR_valid s' ≠ UNINIT ∧
    dispatched s' = dispatched s ++ m_queue s.
Proof.
  intros Hok Hvalid.
  destruct (for_U32_doDispatch_safe (length (m_queue s)) s) as (s' & Hrun & Hvalid');
    [done|by rewrite firstn_all|done|].
  assert (schedIn_handler portNum context s = Done tt s') as Hsched.
  { unfold schedIn_handler, getMessagesAvailable. unfold_M. done. }
  exists s'. split_and!; [done|done|].
  by destruct (schedIn_handler_Done_inv portNum context s s' Hsched).
Qed.

End FurtherProperties.

(** * The properties on the concrete deployment *)

#[local] Existing Instance tutorialAc.

(** The end-to-end scenario: 2.0 + 3.0 with FACTOR at its default 1.0
    reports 5.0; after FACTOR is set to 2.0 by command the same request
    reports 10.0. *)
Example end_to_end :
  history (final (mathOpIn_handler 0%Z F32_2_0 ADD F32_3_0 nominal)) =
    [EVENT_OPERATION_PERFORMED ADD; TLM_OPERATION ADD; PORT_mathResultOut 0%Z F32_5_0] ∧
  history (final (mathOpIn_handler 0%Z F32_2_0 ADD F32_3_0
                    (final (dispatch OPCODE_FACTOR_SET 1%Z [F32_2_0] nominal)))) =
    [EVENT_FACTOR_UPDATED F32_2_0; CMD_RESPONSE 10%Z 1%Z OK;
     EVENT_OPERATION_PERFORMED ADD; TLM_OPERATION ADD; PORT_mathResultOut 0%Z F32_10_0].
Proof. split; vm_compute; reflexivity. Qed.

(** The scenario of the bounded drain: three messages queued, and every
    handler brings in a new one; one tick dispatches the three and leaves the
    three newcomers queued. *)
Example three_dispatches :
  halted (schedIn_handler 0%Z 0%Z three_queued) = false ∧
  dispatched (final (schedIn_handler 0%Z 0%Z three_queued)) = m_queue three_queued ∧
  length (m_queue (final (schedIn_handler 0%Z 0%Z three_queued))) = 3.
Proof. split_and!; vm_compute; reflexivity. Qed.

Lemma mathOpIn_handler_result_witness :
  MathOp_isValid ADD = true ∧
  paramGet_FACTOR nominal = Done (F32_1_0, DEFAULT) nominal ∧
  (DEFAULT = VALID ∨ DEFAULT = DEFAULT) ∧
  ∃ s', mathOpIn_handler 0%Z F32_2_0 ADD F32_3_0 nominal = Done tt s' ∧
    history s' =
      [EVENT_OPERATION_PERFORMED ADD; TLM_OPERATION ADD; PORT_mathResultOut 0%Z F32_5_0].
Proof.
  assert (MathOp_isValid ADD = true) as Hop by reflexivity.
  assert (paramGet_FACTOR nominal = Done (F32_1_0, DEFAULT) nominal) as Hget
    by (vm_compute; reflexivity).
  assert (DEFAULT = VALID ∨ DEFAULT = DEFAULT) as Hvalid by (right; reflexivity).
  split; [exact Hop|]. split; [exact Hget|]. split; [exact Hvalid|].
  destruct (mathOpIn_handler_result 0%Z F32_2_0 ADD F32_3_0 nominal F32_1_0 DEFAULT
              Hop Hget Hvalid) as [_ (s' & Hrun & Hhist)].
  exists s'. split; [exact Hrun|]. rewrite Hhist. vm_compute. reflexivity.
Defined.

Lemma fatal_assertions_witness :
  halted (mathOpIn_handler 0%Z F32_2_0 (MathOp_other 7) F32_3_0 nominal) = true ∧
  final (mathOpIn_handler 0%Z F32_2_0 (MathOp_other 7) F32_3_0 nominal) = nominal ∧
  parameterUpdated 5%Z nominal = Halt (ARG_PrmId 5%Z) nominal.
Proof.
  destruct (fatal_assertions 0%Z F32_2_0 (MathOp_other 7) F32_3_0 5%Z nominal)
    as (Hiff & Hstate & Hid).
  assert (halted (mathOpIn_handler 0%Z F32_2_0 (MathOp_other 7) F32_3_0 nominal) = true)
    as Hhalt by (apply Hiff; left; reflexivity).
  split; [exact Hhalt|]. split; [exact (Hstate Hhalt)|].
  apply Hid. vm_compute. discriminate.
Defined.

Lemma mathOpIn_handler_DIV_not_finite_witness :
  FACTOR_valid nominal ≠ UNINIT ∧
  F32_is_finite (F32_div F32_2_0 F32_zero) = false ∧
  ∃ s', mathOpIn_handler 0%Z F32_2_0 DIV F32_zero nominal = Done tt s' ∧
    history s' =
      [EVENT_OPERATION_PERFORMED DIV; TLM_OPERATION DIV;
       PORT_mathResultOut 0%Z (S754_infinity false)].
Proof.
  assert (FACTOR_valid nominal ≠ UNINIT) as Hvalid by (vm_compute; discriminate).
  assert (F32_is_finite (F32_div F32_2_0 F32_zero) = false) as Hdiv by reflexivity.
  split; [exact Hvalid|]. split; [exact Hdiv|].
  destruct (mathOpIn_handler_DIV_not_finite 0%Z F32_2_0 F32_zero nominal Hvalid Hdiv)
    as (_ & _ & s' & Hrun & Hhist & _).
  exists s'. split; [exact Hrun|]. rewrite Hhist. vm_compute. reflexivity.
Defined.

Lemma unconnected_output_port_noop_witness :
  m_mathResultOut_OutputPort unwired = None ∧
  OutputPort_invoke (PORT_mathResultOut 0%Z) None F32_5_0 unwired = Done tt unwired ∧
  mathResultOut_out 0%Z F32_5_0 unwired = Done tt unwired ∧
  history (final (mathOpIn_handler 0%Z F32_2_0 ADD F32_3_0 unwired)) =
    [EVENT_OPERATION_PERFORMED ADD; TLM_OPERATION ADD].
Proof.
  assert (m_mathResultOut_OutputPort unwired = None) as Hport by reflexivity.
  destruct (unconnected_output_port_noop (PORT_mathResultOut 0%Z) F32_5_0
              0%Z F32_5_0 F32_2_0 ADD F32_3_0 unwired Hport) as (Hinvoke & Hout & Hrun).
  split; [exact Hport|]. split; [exact Hinvoke|]. split; [exact Hout|].
  rewrite Hrun by (vm_compute; reflexivity). reflexivity.
Defined.

Lemma FACTOR_UPDATED_throttle_witness :
  EVENTID_FACTOR_UPDATED_THROTTLE ≤ length [F32_1_0; F32_2_0; F32_3_0] ∧
  0 < EVENTID_FACTOR_UPDATED_THROTTLE ∧
  ∃ sN sC sR,
    log_FACTOR_UPDATED_each [F32_1_0; F32_2_0; F32_3_0] nominal = Done tt sN ∧
    history sN =
      [EVENT_FACTOR_UPDATED F32_1_0; EVENT_FACTOR_UPDATED F32_2_0;
       EVENT_FACTOR_UPDATED F32_3_0] ∧
    log_ACTIVITY_HI_FACTOR_UPDATED F32_5_0 sN = Done tt sN ∧
    CLEAR_EVENT_THROTTLE_cmdHandler 0%Z 42%Z sN = Done tt sC ∧
    history sC = history sN ++ [EVENT_THROTTLE_CLEARED; CMD_RESPONSE 0%Z 42%Z OK] ∧
    log_ACTIVITY_HI_FACTOR_UPDATED F32_5_0 sC = Done tt sR ∧
    history sR = history sC ++ [EVENT_FACTOR_UPDATED F32_5_0].
Proof.
  assert (EVENTID_FACTOR_UPDATED_THROTTLE ≤ length [F32_1_0; F32_2_0; F32_3_0])
    as Hlen by (simpl; lia).
  assert (0 < EVENTID_FACTOR_UPDATED_THROTTLE) as Hpos by (simpl; lia).
  split; [exact Hlen|]. split; [exact Hpos|].
  destruct (FACTOR_UPDATED_throttle [F32_1_0; F32_2_0; F32_3_0] F32_5_0 0%Z 42%Z
              nominal Hlen Hpos)
    as (sN & sC & sR & HN & Hburst & Hnext & HC & _ & HhC & HR & HhR & _).
  exists sN, sC, sR.
  split; [exact HN|]. split; [exact (Hburst eq_refl)|]. split; [exact Hnext|].
  split; [exact HC|]. split; [exact HhC|]. split; [exact HR|]. exact HhR.
Defined.

Lemma paramSet_paramGet_witness :
  ∃ s', paramSet PARAMID_FACTOR [F32_2_5] two_params = Done PRM_SET_OK s' ∧
    paramGet PARAMID_FACTOR s' = Done (F32_2_5, VALID) s' ∧
    m_params s' !! 7%Z = Some (F32_3_0, DEFAULT).
Proof.
  set (s' := final (paramSet PARAMID_FACTOR [F32_2_5] two_params)).
  assert (paramSet PARAMID_FACTOR [F32_2_5] two_params = Done PRM_SET_OK s') as Hset
    by (vm_compute; reflexivity).
  destruct (paramSet_paramGet PARAMID_FACTOR F32_2_5 two_params s' Hset)
    as (Hget & Hother).
  exists s'. split; [exact Hset|]. split; [exact Hget|].
  destruct (Hother 7%Z) as (Hkeep & _); [vm_compute; discriminate|].
  etrans; [exact Hkeep|]. vm_compute. reflexivity.
Defined.

Lemma dispatch_one_response_witness :
  ∃ s', dispatch 99%Z 42%Z [] nominal = Done tt s' ∧
    cmdResponses (history s') = [(99%Z, 42%Z, INVALID_OPCODE)].
Proof.
  destruct (dispatch_one_response 99%Z 42%Z [] nominal)
    as ((s' & Hrun & Hresp) & _ & _ & Hbad).
  exists s'. split; [exact Hrun|].
  rewrite Hresp, Hbad; [reflexivity|vm_compute; discriminate..].
Defined.

(** The claim of C2 fails where a handler halts: FACTOR was never loaded,
    two requests are queued, and the pass halts on the assertion of the
    first, having dispatched one message of the two and emitted nothing. *)
Lemma schedIn_handler_halts_mid_pass :
  length (m_queue unloaded_two) = 2 ∧
  schedIn_handler 0%Z 0%Z unloaded_two =
    Halt (ARG_ParamValid UNINIT)
      (set_dispatched [MSG_mathOpIn 0%Z F32_2_0 ADD F32_3_0]
         (set_queue [MSG_mathOpIn 0%Z F32_2_0 MUL F32_3_0] unloaded_two)) ∧
  length (dispatched (final (schedIn_handler 0%Z 0%Z unloaded_two))) = 1 ∧
  history (final (schedIn_handler 0%Z 0%Z unloaded_two)) = [].
Proof. split_and!; vm_compute; reflexivity. Qed.

(** The claim of C8 fails for the event and the telemetry: on 2.0 / 0.0 with
    FACTOR 1.0 the handler delivers the infinity through the result port,
    and its event and telemetry write carry the selector DIV; no event or
    telemetry carries an F32 value at all. *)
Lemma DIV_by_zero_value_only_on_port :
  history (final (mathOpIn_handler 0%Z F32_2_0 DIV F32_zero nominal)) =
    [EVENT_OPERATION_PERFORMED DIV; TLM_OPERATION DIV;
     PORT_mathResultOut 0%Z (S754_infinity false)] ∧
  port_values (history (final (mathOpIn_handler 0%Z F32_2_0 DIV F32_zero nominal))) =
    [S754_infinity false] ∧
  sink_values (history (final (mathOpIn_handler 0%Z F32_2_0 DIV F32_zero nominal))) = [].
Proof. split_and!; vm_compute; reflexivity. Qed.

(** The claim of C7 fails once the event is throttled: after three updates
    of FACTOR the fourth, to 2.5, is stored and returns OK, and the history
    still ends with the event of the third; no FACTOR_UPDATED carries 2.5. *)
Lemma fourth_update_emits_nothing :
  history after_three_updates =
    [EVENT_FACTOR_UPDATED F32_2_0; EVENT_FACTOR_UPDATED F32_3_0;
     EVENT_FACTOR_UPDATED F32_5_0] ∧
  ∃ s', paramSet PARAMID_FACTOR [F32_2_5] after_three_updates = Done PRM_SET_OK s' ∧
    paramGet_FACTOR s' = Done (F32_2_5, VALID) s' ∧
    history s' = history after_three_updates.
Proof.
  split; [vm_compute; reflexivity|].
  exists (final (paramSet PARAMID_FACTOR [F32_2_5] after_three_updates)).
  split_and!; vm_compute; reflexivity.
Qed.

Lemma mathOpIn_handler_assert_order_witness :
  mathOpIn_handler 0%Z F32_2_0 (MathOp_other 7) F32_3_0 unloaded =
    Halt (ARG_MathOp (MathOp_other 7)) unloaded ∧
  mathOpIn_handler 0%Z F32_2_0 ADD F32_3_0 unloaded =
    Halt (ARG_ParamValid UNINIT) unloaded.
Proof.
  destruct (mathOpIn_handler_assert_order 0%Z F32_2_0 (MathOp_other 7) F32_3_0 unloaded)
    as [Hfirst _].
  destruct (mathOpIn_handler_assert_order 0%Z F32_2_0 ADD F32_3_0 unloaded)
    as [_ Hsecond].
  split; [apply Hfirst; reflexivity|apply Hsecond; reflexivity].
Defined.

Lemma parameterUpdated_FACTOR_witness :
  parameterUpdated PARAMID_FACTOR unloaded = Halt (ARG_ParamValid UNINIT) unloaded ∧
  history (final (parameterUpdated PARAMID_FACTOR nominal)) =
    [EVENT_FACTOR_UPDATED F32_1_0].
Proof.
  destruct (parameterUpdated_FACTOR unloaded) as (Hhalt & _ & _).
  destruct (parameterUpdated_FACTOR nominal) as (_ & Hrun & _).
  split; [apply Hhalt; reflexivity|].
  rewrite Hrun by (vm_compute; discriminate). vm_compute. reflexivity.
Defined.

Lemma paramSet_FACTOR_each_Done_witness :
  ∃ s', paramSet_FACTOR_each [F32_2_0; F32_3_0; F32_5_0; F32_2_5] nominal = Done tt s' ∧
    history s' =
      [EVENT_FACTOR_UPDATED F32_2_0; EVENT_FACTOR_UPDATED F32_3_0;
       EVENT_FACTOR_UPDATED F32_5_0] ∧
    paramGet_FACTOR s' = Done (F32_2_5, VALID) s'.
Proof.
  destruct (paramSet_FACTOR_each_Done [F32_2_0; F32_3_0; F32_5_0; F32_2_5] nominal)
    as (s' & Hrun & Hhist & _ & Hlast).
  exists s'. split; [exact Hrun|]. split; [exact Hhist|].
  apply Hlast. reflexivity.
Defined.

Lemma request_after_update_witness :
  MathOp_isValid ADD = true ∧
  ∃ s1 s2,
    paramSet PARAMID_FACTOR [F32_2_0] unloaded = Done PRM_SET_OK s1 ∧
    mathOpIn_handler 0%Z F32_2_0 ADD F32_3_0 s1 = Done tt s2 ∧
    history s2 = history s1 ++
      [EVENT_OPERATION_PERFORMED ADD; TLM_OPERATION ADD;
       PORT_mathResultOut 0%Z F32_10_0].
Proof.
  assert (MathOp_isValid ADD = true) as Hop by reflexivity.
  split; [exact Hop|].
  destruct (request_after_update F32_2_0 0%Z F32_2_0 ADD F32_3_0 unloaded Hop)
    as (s1 & s2 & Hset & Hrun & Hhist).
  exists s1, s2. split; [exact Hset|]. split; [exact Hrun|]. exact Hhist.
Defined.

Lemma requests_independent_witness :
  MathOp_isValid ADD = true ∧ MathOp_isValid MUL = true ∧
  FACTOR_valid nominal ≠ UNINIT ∧
  ∃ s1 s2,
    mathOpIn_handler 0%Z F32_2_0 ADD F32_3_0 nominal = Done tt s1 ∧
    mathOpIn_handler 1%Z F32_2_0 MUL F32_5_0 s1 = Done tt s2 ∧
    history s2 =
      [EVENT_OPERATION_PERFORMED ADD; TLM_OPERATION ADD; PORT_mathResultOut 0%Z F32_5_0;
       EVENT_OPERATION_PERFORMED MUL; TLM_OPERATION MUL; PORT_mathResultOut 0%Z F32_10_0].
Proof.
  assert (MathOp_isValid ADD = true) as HopA by reflexivity.
  assert (MathOp_isValid MUL = true) as HopB by reflexivity.
  assert (FACTOR_valid nominal ≠ UNINIT) as Hvalid by (vm_compute; discriminate).
  split; [exact HopA|]. split; [exact HopB|]. split; [exact Hvalid|].
  destruct (requests_independent 0%Z F32_2_0 ADD F32_3_0 1%Z F32_2_0 MUL F32_5_0
              nominal HopA HopB Hvalid) as (s1 & s2 & Hrun1 & Hrun2 & Hhist).
  exists s1, s2. split; [exact Hrun1|]. split; [exact Hrun2|].
  rewrite Hhist. vm_compute. reflexivity.
Defined.

Lemma mathOpIn_handler_NaN_witness :
  MathOp_isValid SUB = true ∧
  FACTOR_valid nominal ≠ UNINIT ∧
  F32_is_nan F32_2_0 = false ∧ F32_is_nan S754_nan = true ∧
  ∃ s', mathOpIn_handler 0%Z F32_2_0 SUB S754_nan nominal = Done tt s' ∧
    history s' =
      [EVENT_OPERATION_PERFORMED SUB; TLM_OPERATION SUB; PORT_mathResultOut 0%Z S754_nan].
Proof.
  assert (MathOp_isValid SUB = true) as Hop by reflexivity.
  assert (FACTOR_valid nominal ≠ UNINIT) as Hvalid by (vm_compute; discriminate).
  split; [exact Hop|]. split; [exact Hvalid|].
  split; [reflexivity|]. split; [reflexivity|].
  destruct (mathOpIn_handler_NaN 0%Z F32_2_0 SUB S754_nan nominal Hop Hvalid)
    as (s' & Hrun & Hhist); [right; left; reflexivity|].
  exists s'. split; [exact Hrun|]. exact Hhist.
Defined.

Lemma mathOpIn_handler_factor_one_witness :
  MathOp_isValid DIV = true ∧
  FACTOR_valid nominal ≠ UNINIT ∧
  FACTOR_value nominal = F32_1_0 ∧
  F32_valid (spec_operator DIV F32_10_0 F32_2_0) = true ∧
  ∃ s', mathOpIn_handler 0%Z F32_10_0 DIV F32_2_0 nominal = Done tt s' ∧
    history s' =
      [EVENT_OPERATION_PERFORMED DIV; TLM_OPERATION DIV; PORT_mathResultOut 0%Z F32_5_0].
Proof.
  assert (MathOp_isValid DIV = true) as Hop by reflexivity.
  assert (FACTOR_valid nominal ≠ UNINIT) as Hvalid by (vm_compute; discriminate).
  assert (FACTOR_value nominal = F32_1_0) as Hone by (vm_compute; reflexivity).
  assert (F32_valid (spec_operator DIV F32_10_0 F32_2_0) = true) as Hwf
    by (vm_compute; reflexivity).
  split; [exact Hop|]. split; [exact Hvalid|]. split; [exact Hone|]. split; [exact Hwf|].
  destruct (mathOpIn_handler_factor_one 0%Z F32_10_0 DIV F32_2_0 nominal
              Hop Hvalid Hone Hwf) as (s' & Hrun & Hhist).
  exists s'. split; [exact Hrun|]. rewrite Hhist. vm_compute. reflexivity.
Defined.

Lemma mathOpIn_handler_commutative_witness :
  (MUL = ADD ∨ MUL = MUL) ∧
  mathOpIn_handler 0%Z F32_2_0 MUL F32_5_0 nominal =
    mathOpIn_handler 0%Z F32_5_0 MUL F32_2_0 nominal ∧
  port_values (history (final (mathOpIn_handler 0%Z F32_5_0 MUL F32_2_0 nominal))) =
    [F32_10_0].
Proof.
  assert (MUL = ADD ∨ MUL = MUL) as Hop by (right; reflexivity).
  split; [exact Hop|].
  split; [exact (mathOpIn_handler_commutative 0%Z F32_2_0 MUL F32_5_0 nominal Hop)|].
  vm_compute. reflexivity.
Defined.

Lemma schedIn_handler_idle_witness :
  m_queue nominal = [] ∧
  schedIn_handler 0%Z 0%Z nominal = Done tt nominal.
Proof.
  assert (m_queue nominal = []) as Hqueue by reflexivity.
  split; [exact Hqueue|].
  destruct (schedIn_handler_idle 0%Z 0%Z nominal) as [Hidle _].
  exact (Hidle Hqueue).
Defined.

Lemma schedIn_handler_two_ticks_witness :
  ∃ s1 s2,
    schedIn_handler 0%Z 0%Z three_accepted = Done tt s1 ∧
    schedIn_handler 0%Z 1%Z s1 = Done tt s2 ∧
    length (m_queue s1) = 3 ∧
    dispatched s2 = m_queue three_accepted ++ m_queue s1 ∧
    enqueued s2 = m_queue three_accepted ++ m_queue s1 ++ m_queue s2.
Proof.
  set (s1 := final (schedIn_handler 0%Z 0%Z three_accepted)).
  set (s2 := final (schedIn_handler 0%Z 1%Z s1)).
  assert (schedIn_handler 0%Z 0%Z three_accepted = Done tt s1) as Hrun1
    by (vm_compute; reflexivity).
  assert (schedIn_handler 0%Z 1%Z s1 = Done tt s2) as Hrun2
    by (vm_compute; reflexivity).
  destruct (schedIn_handler_two_ticks 0%Z 0%Z 0%Z 1%Z three_accepted s1 s2 Hrun1 Hrun2)
    as (_ & Hdisp & Henq).
  exists s1, s2. split; [exact Hrun1|]. split; [exact Hrun2|].
  split; [vm_compute; reflexivity|]. split; [exact Hdisp|]. exact Henq.
Defined.

Lemma schedIn_handler_conserves_witness :
  conserved three_accepted ∧
  conserved (final (schedIn_handler 0%Z 0%Z three_accepted)).
Proof.
  assert (conserved three_accepted) as Hs by (vm_compute; reflexivity).
  split; [exact Hs|].
  exact (schedIn_handler_conserves 0%Z 0%Z three_accepted Hs).
Defined.

Lemma schedIn_handler_safe_witness :
  Forall (λ msg, Message_ok msg = true) (m_queue three_queued) ∧
  FACTOR_valid three_queued ≠ UNINIT ∧
  ∃ s', schedIn_handler 0%Z 0%Z three_queued = Done tt s' ∧
    dispatched s' = m_queue three_queued.
Proof.
  assert (Forall (λ msg, Message_ok msg = true) (m_queue three_queued)) as Hok
    by (repeat constructor).
  assert (FACTOR_valid three_queued ≠ UNINIT) as Hvalid by (vm_compute; discriminate).
  split; [exact Hok|]. split; [exact Hvalid|].
  destruct (schedIn_handler_safe 0%Z 0%Z three_queued Hok Hvalid)
    as (s' & Hrun & _ & Hdisp).
  exists s'. split; [exact Hrun|]. exact Hdisp.
Defined.
